(** * PrometheusTest REST harness: configuration, retry, validation, assertions

    A shallow embedding of the parts of the test harness that carry
    behaviour:

    - [RESTAPI/config/config.js]            ([Module Config])
    - [RESTAPI/utils/test-utils.js]         ([Module Retry], [Module Validator])
    - [assertions/FluentAssertions.js]      ([Module Fluent])
    - [http/HttpClient.js]                  ([Module Http])

    JavaScript values that are only read (configuration objects, response
    bodies, schemas) are trees ([JS.value]).  Where object identity or
    in-place mutation matters (the assertion engine, the HTTP client) the
    state is explicit. *)

From stdpp Require Import base strings list gmap pretty.

Open Scope Z_scope.

Set Warnings "-register-all".

(** ** Completions

    A JavaScript call either returns or throws.  Only the two error
    classes that the embedded code can raise are distinguished. *)

Inductive exn : Type :=
| TypeError
| AssertionError.

Inductive result (A : Type) : Type :=
| Ok (a : A)
| Throw (e : exn).

Arguments Ok {A} a.
Arguments Throw {A} e.

#[global] Instance result_ret : MRet result := λ A a, Ok a.
#[global] Instance result_bind : MBind result := λ A B f m,
  match m with
  | Ok a => f a
  | Throw e => Throw e
  end.

#[global] Instance exn_eq_dec : EqDecision exn.
Proof. solve_decision. Defined.

(** ** JavaScript values as trees *)

Module JS.

(** Numbers are restricted to integers; objects list their own enumerable
    properties in enumeration order.  [VObjectPrototype] is the object every
    plain object inherits from; [VBuiltin] stands for any other built-in
    object of the realm (a method found on a prototype, a constructor,
    [Array.prototype], ...), identified by its path. *)
Inductive value : Type :=
| VUndefined
| VNull
| VBool (b : bool)
| VNum (n : Z)
| VStr (s : string)
| VArr (elems : list value)
| VObj (props : list (string * value))
| VObjectPrototype
| VBuiltin (callable : bool) (name : string).

(** Built-in objects other than [Object.prototype] vary between engine
    versions; what they expose is a parameter of the model. *)
Record realm : Type := {
  (* [key in b], through the whole prototype chain of built-in [b] *)
  builtin_has : string → string → bool;
  (* what reading [key] on [receiver] yields once the lookup has reached
     built-in [b] on the prototype chain *)
  builtin_get : string → value → string → result value;
  (* [Array.isArray(b)] *)
  builtin_isArray : string → bool;
  (* [String(b)] *)
  builtin_toString : string → result string;
  (* [String(o)] for an object [o] that overrides [toString] or [valueOf]
     with a built-in function *)
  exotic_toString : value → result string
}.

(** [typeof v] *)
Definition typeof (v : value) : string :=
  match v with
  | VUndefined => "undefined"
  | VNull => "object"
  | VBool _ => "boolean"
  | VNum _ => "number"
  | VStr _ => "string"
  | VArr _ | VObj _ | VObjectPrototype => "object"
  | VBuiltin callable _ => if callable then "function" else "object"
  end.

(** ToBoolean, as used by [||] *)
Definition truthy (v : value) : bool :=
  match v with
  | VUndefined | VNull => false
  | VBool b => b
  | VNum n => negb (n =? 0)
  | VStr s => negb (String.eqb s EmptyString)
  | _ => true
  end.

Definition is_callable (v : value) : bool :=
  match v with
  | VBuiltin callable _ => callable
  | _ => false
  end.

(** [v === s] for a string literal [s] *)
Definition is_string (v : value) (s : string) : bool :=
  match v with
  | VStr s' => String.eqb s' s
  | _ => false
  end.

(** [v === null] *)
Definition is_null (v : value) : bool :=
  match v with
  | VNull => true
  | _ => false
  end.

(** [Array.isArray(v)] *)
Definition isArray (R : realm) (v : value) : bool :=
  match v with
  | VArr _ => true
  | VBuiltin _ b => builtin_isArray R b
  | _ => false
  end.

(** Own properties. *)

Fixpoint assoc (k : string) (props : list (string * value)) : option value :=
  match props with
  | [] => None
  | (k', v) :: rest => if String.eqb k' k then Some v else assoc k rest
  end.

(** The canonical numeric strings "0", "1", ..., "n-1". *)
Definition index_keys (n : nat) : list string :=
  (λ i : nat, pretty i) <$> seq 0 n.

(** The array index a property key denotes, if it is below [n]. *)
Definition parse_index (n : nat) (k : string) : option nat :=
  snd <$> list_find (λ i : nat, pretty i = k) (seq 0 n).

Fixpoint string_chars (s : string) : list value :=
  match s with
  | EmptyString => []
  | String c rest => VStr (String c EmptyString) :: string_chars rest
  end.

(** Own enumerable string keys, in the order [for ... in] and object spread
    visit them.  Built-in objects have no enumerable own properties. *)
Definition own_keys (v : value) : list string :=
  match v with
  | VObj props => props.*1
  | VArr elems => index_keys (length elems)
  | VStr s => index_keys (String.length s)
  | _ => []
  end.

(** The value of an own property (enumerable or not). *)
Definition get_own (v : value) (k : string) : option value :=
  match v with
  | VObj props => assoc k props
  | VArr elems =>
      match parse_index (length elems) k with
      | Some i => elems !! i
      | None => if String.eqb k "length" then Some (VNum (Z.of_nat (length elems))) else None
      end
  | VStr s =>
      match parse_index (String.length s) k with
      | Some i => string_chars s !! i
      | None => if String.eqb k "length" then Some (VNum (Z.of_nat (String.length s))) else None
      end
  | _ => None
  end.

(** [Object.prototype]: its methods, and the [__proto__] accessor, which
    yields the prototype of the receiver. *)
Definition Object_prototype_methods : list string :=
  [ "constructor"; "hasOwnProperty"; "isPrototypeOf"; "propertyIsEnumerable";
    "toLocaleString"; "toString"; "valueOf";
    "__defineGetter__"; "__defineSetter__"; "__lookupGetter__"; "__lookupSetter__" ].

Definition Object_prototype_has (k : string) : bool :=
  String.eqb k "__proto__" || bool_decide (k ∈ Object_prototype_methods).

Definition Object_prototype_get (receiver_proto : value) (k : string) : value :=
  if String.eqb k "__proto__" then receiver_proto
  else if bool_decide (k ∈ Object_prototype_methods)
       then VBuiltin true ("Object.prototype." +:+ k)
       else VUndefined.

(** [k in v]: throws on a primitive right-hand side. *)
Definition has_property (R : realm) (k : string) (v : value) : result bool :=
  match v with
  | VObj props => Ok (bool_decide (is_Some (assoc k props)) || Object_prototype_has k)
  | VObjectPrototype => Ok (Object_prototype_has k)
  | VArr _ => Ok (bool_decide (is_Some (get_own v k)) || builtin_has R "Array.prototype" k)
  | VBuiltin _ b => Ok (builtin_has R b k)
  | VUndefined | VNull | VBool _ | VNum _ | VStr _ => Throw TypeError
  end.

(** [v[k]] and [v.k]: throws on [undefined] and [null]. *)
Definition get (R : realm) (v : value) (k : string) : result value :=
  match v with
  | VUndefined | VNull => Throw TypeError
  | VObj props =>
      match assoc k props with
      | Some x => Ok x
      | None => Ok (Object_prototype_get VObjectPrototype k)
      end
  | VObjectPrototype => Ok (Object_prototype_get VNull k)
  | VArr _ =>
      match get_own v k with
      | Some x => Ok x
      | None => builtin_get R "Array.prototype" v k
      end
  | VStr _ =>
      match get_own v k with
      | Some x => Ok x
      | None => builtin_get R "String.prototype" v k
      end
  | VNum _ => builtin_get R "Number.prototype" v k
  | VBool _ => builtin_get R "Boolean.prototype" v k
  | VBuiltin _ b => builtin_get R b v k
  end.

(** String conversion, as performed by a template literal. *)
Fixpoint to_string (R : realm) (v : value) : result string :=
  match v with
  | VUndefined => Ok "undefined"
  | VNull => Ok "null"
  | VBool b => Ok (if b then "true" else "false")
  | VNum n => Ok (pretty n)
  | VStr s => Ok s
  | VArr elems =>
      (* Array.prototype.join: holes of null and undefined print as empty *)
      (fix join (l : list value) : result string :=
         match l with
         | [] => Ok EmptyString
         | x :: rest =>
             s ← match x with
                 | VUndefined | VNull => Ok EmptyString
                 | _ => to_string R x
                 end;
             match rest with
             | [] => Ok s
             | _ => r ← join rest; Ok (s +:+ "," +:+ r)
             end
         end) elems
  | VObj props =>
      match assoc "toString" props with
      | None => Ok "[object Object]"
      | Some f =>
          if is_callable f then exotic_toString R v
          else match assoc "valueOf" props with
               | Some g => if is_callable g then exotic_toString R v else Throw TypeError
               | None => Throw TypeError
               end
      end
  | VObjectPrototype => Ok "[object Object]"
  | VBuiltin _ b => builtin_toString R b
  end.

(** Object literals: [{ ..., k: v }] defines [k], replacing an earlier
    definition in place. *)
Fixpoint obj_set (props : list (string * value)) (k : string) (v : value)
  : list (string * value) :=
  match props with
  | [] => [(k, v)]
  | (k', v') :: rest =>
      if String.eqb k' k then (k', v) :: rest else (k', v') :: obj_set rest k v
  end.

(** [{ ...target, ...src }]: copies the own enumerable properties of [src];
    spreading [undefined], [null] or another keyless value adds nothing. *)
Definition spread (target : list (string * value)) (src : value)
  : list (string * value) :=
  foldl (λ acc k, match get_own src k with
                  | Some x => obj_set acc k x
                  | None => acc
                  end) target (own_keys src).

End JS.

(** ** RESTAPI/config/config.js *)

Module Config.
Import JS.

Definition config : value :=
  VObj [
    ("baseUrl", VStr "https://jsonplaceholder.typicode.com");
    ("headers", VObj [
       ("Content-Type", VStr "application/json");
       ("Accept", VStr "application/json");
       ("User-Agent", VStr "ModularTestFramework/1.0.0") ]);
    ("timeout", VNum 10000);
    ("retry", VObj [ ("attempts", VNum 3); ("delay", VNum 1000) ]);
    ("environments", VObj [
       ("development", VObj [
          ("baseUrl", VStr "https://jsonplaceholder.typicode.com");
          ("timeout", VNum 15000) ]);
       ("staging", VObj [
          ("baseUrl", VStr "https://jsonplaceholder-staging.typicode.com");
          ("timeout", VNum 10000) ]);
       ("production", VObj [
          ("baseUrl", VStr "https://jsonplaceholder.typicode.com");
          ("timeout", VNum 5000) ]) ])
  ].

(** [config.environments[environment] || config.environments.development] *)
Definition select_environment (R : realm) (cfg : value) (environment : string)
  : result value :=
  environments ← get R cfg "environments";
  named ← get R environments environment;
  if truthy named then Ok named else get R environments "development".

(** The body of [getEnvironmentConfig], with the module-level [config]
    object as an explicit argument. *)
Definition resolve (R : realm) (cfg : value) (environment : string) : result value :=
  envConfig ← select_environment R cfg environment;
  let merged := spread (spread [] cfg) envConfig in
  baseHeaders ← get R cfg "headers";
  envHeaders ← get R envConfig "headers";
  Ok (VObj (obj_set merged "headers" (VObj (spread (spread [] baseHeaders) envHeaders)))).

(** [getEnvironmentConfig(environment = 'development')]; [None] is a call
    without the argument. *)
Definition getEnvironmentConfig (R : realm) (environment : option string) : result value :=
  resolve R config (default "development" environment).

(** The keys of [config.environments]. *)
Definition environment_names : list string :=
  match get_own config "environments" with
  | Some environments => own_keys environments
  | None => []
  end.

(** [getCurrentEnvironment()], over the two environment variables. *)
Definition getCurrentEnvironment (NODE_ENV TEST_ENV : option string) : string :=
  match NODE_ENV with
  | Some e => if String.eqb e EmptyString then
                match TEST_ENV with
                | Some t => if String.eqb t EmptyString then "development" else t
                | None => "development"
                end
              else e
  | None => match TEST_ENV with
            | Some t => if String.eqb t EmptyString then "development" else t
            | None => "development"
            end
  end.

End Config.

(** ** RESTAPI/utils/test-utils.js: [validateResponseSchema] *)

Module Validator.
Import JS.

(** What one iteration of the [for (const key in schemaObj)] loop decides. *)
Inductive verdict : Type :=
| Report (message : string)      (* [errors.push(message)] *)
| Descend (actualValue schema : value) (fullPath : string)
                                 (* the recursive [validateObject] call *)
| Accept.                        (* none of the branches applies *)

(** [path ? `${path}.${key}` : key] *)
Definition full_path (path key : string) : string :=
  if String.eqb path EmptyString then key else path +:+ "." +:+ key.

(** The loop body of [validateObject] for one [key]. *)
Definition check_key (R : realm) (obj schemaObj : value) (path key : string)
  : result verdict :=
  let fullPath := full_path path key in
  present ← has_property R key obj;
  if negb present then Ok (Report ("Missing property: " +:+ fullPath))
  else
    expectedType ← get R schemaObj key;
    actualValue ← get R obj key;
    let actualType := typeof actualValue in
    if is_string expectedType "array" && negb (isArray R actualValue) then
      Ok (Report ("Property " +:+ fullPath +:+ " should be an array, got " +:+ actualType))
    else if negb (is_string expectedType "array") && negb (is_string expectedType actualType) then
      expected ← to_string R expectedType;
      Ok (Report ("Property " +:+ fullPath +:+ " should be " +:+ expected +:+ ", got " +:+ actualType))
    else if is_string expectedType "object" && negb (is_null actualValue) then
      Ok (Descend actualValue expectedType fullPath)
    else Ok Accept.

(** The [for (const key in schemaObj)] loop over the remaining [keys];
    [recur] is the nested [validateObject] call.  The [errors] array of the
    enclosing closure is threaded through; [None] means the recursion budget
    was exhausted. *)
Fixpoint for_each_key (R : realm)
    (recur : value → value → string → list string → option (result (list string)))
    (obj schemaObj : value) (path : string) (keys : list string) (errors : list string)
  : option (result (list string)) :=
  match keys with
  | [] => Some (Ok errors)
  | key :: rest =>
      match check_key R obj schemaObj path key with
      | Throw e => Some (Throw e)
      | Ok (Report message) =>
          for_each_key R recur obj schemaObj path rest (errors ++ [message])
      | Ok Accept => for_each_key R recur obj schemaObj path rest errors
      | Ok (Descend actualValue schema fullPath) =>
          match recur actualValue schema fullPath errors with
          | Some (Ok errors') => for_each_key R recur obj schemaObj path rest errors'
          | stopped => stopped
          end
      end
  end.

(** [validateObject(obj, schemaObj, path)], with at most [fuel] nested
    levels. *)
Fixpoint validateObject (R : realm) (fuel : nat) (obj schemaObj : value)
    (path : string) (errors : list string) : option (result (list string)) :=
  match fuel with
  | O => None
  | S fuel' =>
      for_each_key R (validateObject R fuel') obj schemaObj path (own_keys schemaObj) errors
  end.

Record validation : Type := {
  isValid : bool;
  errors : list string
}.

(** [validateResponseSchema(response, schema)] *)
Definition validateResponseSchema_fuel (R : realm) (fuel : nat)
    (response schema : value) : option (result validation) :=
  match get R response "data" with
  | Throw e => Some (Throw e)
  | Ok data =>
      match validateObject R fuel data schema EmptyString [] with
      | None => None
      | Some (Throw e) => Some (Throw e)
      | Some (Ok errors) =>
          Some (Ok {| isValid := bool_decide (length errors = 0%nat); errors := errors |})
      end
  end.

(** Two levels of recursion always suffice
    ([validateResponseSchema_fuel_enough] below): a nested call only ever
    receives the string ['object'] as its schema. *)
Definition validateResponseSchema (R : realm) (response schema : value)
  : option (result validation) :=
  validateResponseSchema_fuel R 2 response schema.

End Validator.

(** ** RESTAPI/utils/test-utils.js: [retryWithBackoff] *)

Module Retry.

(** [maxAttempts] and [initialDelay] are integers, as in the retry policy
    of the design; [Math.pow(2, attempt - 1)] is then the exact power of
    two. *)

(** How the promise returned by [fn()] settles. *)
Inductive settled (V E : Type) : Type :=
| Fulfilled (v : V)
| Rejected (e : E).
Arguments Fulfilled {V E} v.
Arguments Rejected {V E} e.

(** How the promise returned by [retryWithBackoff] settles. *)
Inductive completion (V E : Type) : Type :=
| Returned (v : V)        (* [return await fn()] *)
| ReturnedUndefined       (* falling off the end of the loop *)
| Thrown (e : E).         (* [throw error] *)
Arguments Returned {V E} v.
Arguments ReturnedUndefined {V E}.
Arguments Thrown {V E} e.

(** What an observer of a run sees, in order. *)
Inductive event : Type :=
| Invoke              (* [fn()] *)
| Delay (ms : Z).     (* [await delay(ms)] *)

#[global] Instance event_eq_dec : EqDecision event.
Proof. solve_decision. Defined.

Section Retry.
Context {S V E : Type}.

(** A zero-argument asynchronous operation: each invocation settles and may
    change the state the operation closes over. *)
Definition operation : Type := S → settled V E * S.

(** The [while (attempt <= maxAttempts)] loop, from the value of [attempt]
    on.  [budget] bounds the number of further iterations; [None] means it
    ran out. *)
Fixpoint retry_loop (budget : nat) (fn : operation) (maxAttempts initialDelay : Z)
    (attempt : Z) (s : S) (trace : list event)
  : option (completion V E * S * list event) :=
  if attempt <=? maxAttempts then
    let '(outcome, s) := fn s in
    let trace := trace ++ [Invoke] in
    match outcome with
    | Fulfilled v => Some (Returned v, s, trace)
    | Rejected error =>
        if attempt =? maxAttempts then Some (Thrown error, s, trace)
        else
          let delayMs := initialDelay * 2 ^ (attempt - 1) in
          let trace := trace ++ [Delay delayMs] in
          match budget with
          | O => None
          | Datatypes.S budget' =>
              retry_loop budget' fn maxAttempts initialDelay (attempt + 1) s trace
          end
    end
  else Some (ReturnedUndefined, s, trace).

(** [retryWithBackoff(fn, maxAttempts = 3, initialDelay = 1000)], run from
    operation state [s].  An omitted argument is [None]. *)
Definition retryWithBackoff (fn : operation) (maxAttempts initialDelay : option Z) (s : S)
  : option (completion V E * S * list event) :=
  let maxAttempts := default 3 maxAttempts in
  let initialDelay := default 1000 initialDelay in
  retry_loop (Z.to_nat maxAttempts) fn maxAttempts initialDelay 1 s [].

(** The state the operation is in before its [i]-th invocation (from 0),
    and how that invocation settles. *)
Fixpoint state_before (fn : operation) (s : S) (i : nat) : S :=
  match i with
  | O => s
  | Datatypes.S i' => state_before fn (snd (fn s)) i'
  end.

Definition nth_outcome (fn : operation) (s : S) (i : nat) : settled V E :=
  fst (fn (state_before fn s i)).

Definition fails (o : settled V E) : Prop :=
  match o with
  | Rejected _ => True
  | Fulfilled _ => False
  end.

End Retry.

(** Observations on a trace. *)
Definition invocations (trace : list event) : nat :=
  length (filter (λ ev, ev = Invoke) trace).

Definition waits (trace : list event) : list Z :=
  omap (λ ev, match ev with Delay ms => Some ms | Invoke => None end) trace.

(** The events of [k] failed attempts starting at attempt number
    [attempt], then the attempt that ends the run. *)
Definition events_from (initialDelay attempt : Z) (k : nat) : list event :=
  flat_map (λ i : nat, [Invoke; Delay (initialDelay * 2 ^ (attempt - 1 + Z.of_nat i))])
           (seq 0 k) ++ [Invoke].

(** [k] failed attempts, each followed by its wait, then one more attempt. *)
Definition backoff_trace (initialDelay : Z) (k : nat) : list event :=
  flat_map (λ i : nat, [Invoke; Delay (initialDelay * 2 ^ Z.of_nat i)]) (seq 0 k) ++ [Invoke].

End Retry.

(** ** assertions/FluentAssertions.js *)

Module Fluent.

(** The assertion engine compares objects by identity and allocates array
    literals, so here objects live in a heap and values refer to them. *)

Definition loc : Type := positive.

Inductive jsval : Type :=
| JUndefined
| JNull
| JBool (b : bool)
| JNum (n : Z)
| JStr (s : string)
| JRef (l : loc).

Inductive jsobj : Type :=
| OArr (elems : list jsval)
| OObj (props : list (string * jsval))
| OFun (name : string).

#[global] Instance jsval_eq_dec : EqDecision jsval.
Proof. solve_decision. Defined.

Abbreviation heap := (gmap loc jsobj).

(** The chai assertions whose verdict depends on the prototype chain or on
    a deep traversal, and the JavaScript built-ins used with computed
    names, are parameters: they belong to the libraries, not to this
    repository.  None of them can write to the heap. *)
Record externals : Type := {
  (* [String(v)], as performed by a template literal *)
  to_string : heap → jsval → result string;
  (* [v[name]] when [name] is not an own property of an object [v], and
     for a primitive [v] *)
  inherited : heap → jsval → string → result jsval;
  (* [name in Object(v)], chai's test behind [.property(name)] *)
  has_property : heap → jsval → string → bool;
  (* the verdict of [expect(v).to.have.lengthOf(n)] *)
  length_matches : heap → jsval → jsval → bool;
  (* the verdict of [expect(v).to.deep.include(w)] *)
  deep_includes : heap → jsval → jsval → bool;
  (* the verdict of [expect(v).to.deep.equal(w)] *)
  deep_equals : heap → jsval → jsval → bool;
  (* [s.toLowerCase()] *)
  toLowerCase : string → string
}.

(** Methods run in a state-and-exception monad over the heap. *)
Definition M (A : Type) : Type := heap → result A * heap.

#[global] Instance M_ret : MRet M := λ A a h, (Ok a, h).
#[global] Instance M_bind : MBind M := λ A B f m h,
  match m h with
  | (Ok a, h') => f a h'
  | (Throw e, h') => (Throw e, h')
  end.

Definition throw {A : Type} (e : exn) : M A := λ h, (Throw e, h).
Definition lift {A : Type} (r : heap → result A) : M A := λ h, (r h, h).

(** A computation extends the heap when every object that exists before it
    is unchanged after it; it yields [x] when [x] is what it returns
    whenever it returns. *)
Definition extends {A : Type} (m : M A) : Prop :=
  ∀ h r h', m h = (r, h') → h ⊆ h'.
Definition yields {A : Type} (x : A) (m : M A) : Prop :=
  ∀ h r h', m h = (Ok r, h') → r = x.

(** An object or array literal: a new object at an unused location. *)
Definition alloc (o : jsobj) : M jsval :=
  λ h, let l := fresh (dom h) in (Ok (JRef l), <[l := o]> h).

Fixpoint forEach {A : Type} (l : list A) (f : A → M ()) : M () :=
  match l with
  | [] => mret ()
  | x :: rest => f x ≫= λ _, forEach rest f
  end.

Fixpoint assoc (k : string) (props : list (string * jsval)) : option jsval :=
  match props with
  | [] => None
  | (k', v) :: rest => if String.eqb k' k then Some v else assoc k rest
  end.

(** The own property [k] of an object of the heap. *)
Definition get_own (o : jsobj) (k : string) : option jsval :=
  match o with
  | OObj props => assoc k props
  | OArr elems =>
      match JS.parse_index (length elems) k with
      | Some i => elems !! i
      | None => if String.eqb k "length" then Some (JNum (Z.of_nat (length elems))) else None
      end
  | OFun _ => None
  end.

(** [v.k] and [v[k]]: throws on [undefined] and [null]. *)
Definition get (E : externals) (v : jsval) (k : string) : M jsval :=
  lift (λ h,
    match v with
    | JUndefined | JNull => Throw TypeError
    | JRef l =>
        match h !! l ≫= λ o, get_own o k with
        | Some x => Ok x
        | None => inherited E h v k
        end
    | _ => inherited E h v k
    end).

(** [typeof v] *)
Definition typeof (v : jsval) : M string :=
  lift (λ h, Ok
    match v with
    | JUndefined => "undefined"
    | JNull => "object"
    | JBool _ => "boolean"
    | JNum _ => "number"
    | JStr _ => "string"
    | JRef l => match h !! l with
                | Some (OFun _) => "function"
                | _ => "object"
                end
    end).

(** [Object.keys(v)] *)
Definition Object_keys (v : jsval) : M (list string) :=
  lift (λ h,
    match v with
    | JUndefined | JNull => Throw TypeError
    | JStr s => Ok (JS.index_keys (String.length s))
    | JRef l => match h !! l with
                | Some (OObj props) => Ok props.*1
                | Some (OArr elems) => Ok (JS.index_keys (length elems))
                | _ => Ok []
                end
    | _ => Ok []
    end).

(** [a === b] on the values of this model: primitives by value, objects by
    identity. *)
Definition strict_equals (a b : jsval) : bool := bool_decide (a = b).

(** Evaluating a template literal converts each interpolated value to a
    string; the text of a message is not tracked. *)
Definition template (E : externals) (interpolated : list jsval) : M () :=
  forEach interpolated (λ v, lift (λ h, to_string E h v) ≫= λ _, mret ()).

(** chai: every failed expectation throws an [AssertionError]. *)
Definition assert (verdict : bool) : M () :=
  if verdict then mret () else throw AssertionError.

(** [expect(v).to.equal(w)]: strict equality *)
Definition expect_equal (v w : jsval) : M () :=
  assert (strict_equals v w).

(** [expect(v).to.be.within(lo, hi)]: all three must be numbers *)
Definition expect_within (v lo hi : jsval) : M () :=
  assert match v, lo, hi with
         | JNum n, JNum a, JNum b => (a <=? n) && (n <=? b)
         | _, _, _ => false
         end.

(** [expect(v).to.be.below(w)]: both must be numbers *)
Definition expect_below (v w : jsval) : M () :=
  assert match v, w with
         | JNum n, JNum m => n <? m
         | _, _ => false
         end.

(** [expect(v).to.not.be.undefined] and [expect(v).to.not.be.null] *)
Definition expect_not_undefined (v : jsval) : M () :=
  assert (negb (strict_equals v JUndefined)).
Definition expect_not_null (v : jsval) : M () :=
  assert (negb (strict_equals v JNull)).

(** [expect(v).to.be.oneOf(list)]: [list] must be an array, and [v] must
    be strictly equal to one of its elements ([list.indexOf(v) > -1]). *)
Definition expect_oneOf (v list : jsval) : M () :=
  λ h, match list with
       | JRef l => match h !! l with
                   | Some (OArr elems) => assert (existsb (strict_equals v) elems) h
                   | _ => throw AssertionError h
                   end
       | _ => throw AssertionError h
       end.

(** [expect(v).to.have.property(name)] *)
Definition expect_property (E : externals) (v : jsval) (name : string) : M () :=
  λ h, assert match v with
              | JUndefined | JNull => false
              | _ => has_property E h v name
              end h.

(** The type chai detects for a value. *)
Definition detected_type (h : heap) (v : jsval) : string :=
  match v with
  | JUndefined => "undefined"
  | JNull => "null"
  | JBool _ => "boolean"
  | JNum _ => "number"
  | JStr _ => "string"
  | JRef l => match h !! l with
              | Some (OArr _) => "array"
              | Some (OFun _) => "function"
              | _ => "object"
              end
  end.

(** [expect(v).to.be.an(type)]: the detected type of [v] must be the named
    one (the names passed in this file are lower case already). *)
Definition expect_an (v : jsval) (type : string) : M () :=
  λ h, assert (String.eqb type (detected_type h v)) h.

Definition expect_lengthOf (E : externals) (v n : jsval) : M () :=
  λ h, assert (length_matches E h v n) h.
Definition expect_deep_include (E : externals) (v w : jsval) : M () :=
  λ h, assert (deep_includes E h v w) h.
Definition expect_deep_equal (E : externals) (v w : jsval) : M () :=
  λ h, assert (deep_equals E h v w) h.

(** *** class FluentAssertions

    An instance is an object with the single field [actual]; [this] is its
    location. *)

(** [new FluentAssertions(actual)], also [expectResponse(response)] *)
Definition constructor (actual : jsval) : M jsval :=
  alloc (OObj [("actual", actual)]).

Definition expectResponse (response : jsval) : M jsval :=
  constructor response.

Section Methods.
Variable E : externals.
Variable this : loc.

(** [this.actual.<field>] *)
Definition actual_field (field : string) : M jsval :=
  actual ← get E (JRef this) "actual";
  get E actual field.

Definition toHaveStatus (expectedStatus : jsval) : M jsval :=
  status ← actual_field "status";
  status' ← actual_field "status";
  template E [expectedStatus; status'];;
  expect_equal status expectedStatus;;
  mret (JRef this).

Definition toHaveStatusInRange (minStatus maxStatus : jsval) : M jsval :=
  status ← actual_field "status";
  status' ← actual_field "status";
  template E [minStatus; maxStatus; status'];;
  expect_within status minStatus maxStatus;;
  mret (JRef this).

Definition toHaveBody : M jsval :=
  data ← actual_field "data";
  expect_not_undefined data;;
  data ← actual_field "data";
  expect_not_null data;;
  mret (JRef this).

Definition toHaveEmptyBody : M jsval :=
  data ← actual_field "data";
  empty ← alloc (OArr []);
  candidates ← alloc (OArr [JNull; JUndefined; JStr EmptyString; empty]);
  expect_oneOf data candidates;;
  mret (JRef this).

Definition toHaveProperty (property : string) : M jsval :=
  data ← actual_field "data";
  expect_property E data property;;
  mret (JRef this).

Definition toHaveProperties (properties : list string) : M jsval :=
  forEach properties (λ prop,
    data ← actual_field "data";
    expect_property E data prop);;
  mret (JRef this).

Definition toMatchSchema (schema : jsval) : M jsval :=
  keys ← Object_keys schema;
  forEach keys (λ key,
    data ← actual_field "data";
    expect_property E data key;;
    nested ← get E schema key;
    type ← typeof nested;
    nested' ← get E schema key;
    if String.eqb type "object" && negb (strict_equals nested' JNull) then
      data ← actual_field "data";
      member ← get E data key;
      nested'' ← get E schema key;
      type' ← typeof nested'';
      expect_an member type'
    else mret ());;
  mret (JRef this).

Definition toBeArray : M jsval :=
  data ← actual_field "data";
  expect_an data "array";;
  mret (JRef this).

Definition toHaveLength (length : jsval) : M jsval :=
  data ← actual_field "data";
  expect_lengthOf E data length;;
  mret (JRef this).

Definition toBeObject : M jsval :=
  data ← actual_field "data";
  expect_an data "object";;
  mret (JRef this).

Definition toHaveHeader (headerName : string) (headerValue : jsval) : M jsval :=
  headers ← actual_field "headers";
  expect_property E headers (toLowerCase E headerName);;
  (if negb (strict_equals headerValue JUndefined) then
     headers ← actual_field "headers";
     found ← get E headers (toLowerCase E headerName);
     expect_equal found headerValue
   else mret ());;
  mret (JRef this).

Definition toContain (expectedData : jsval) : M jsval :=
  data ← actual_field "data";
  expect_deep_include E data expectedData;;
  mret (JRef this).

Definition toEqual (expectedData : jsval) : M jsval :=
  data ← actual_field "data";
  expect_deep_equal E data expectedData;;
  mret (JRef this).

Definition toRespondWithin (maxTime : jsval) : M jsval :=
  responseTime ← actual_field "responseTime";
  (if negb (strict_equals responseTime JUndefined) then
     responseTime ← actual_field "responseTime";
     expect_below responseTime maxTime
   else mret ());;
  mret (JRef this).

Definition and : M jsval :=
  mret (JRef this).

Definition getActual : M jsval :=
  get E (JRef this) "actual".

End Methods.

(** The checks of the engine, as calls with their arguments. *)
Inductive check : Type :=
| ToHaveStatus (expectedStatus : jsval)
| ToHaveStatusInRange (minStatus maxStatus : jsval)
| ToHaveBody
| ToHaveEmptyBody
| ToHaveProperty (property : string)
| ToHaveProperties (properties : list string)
| ToMatchSchema (schema : jsval)
| ToBeArray
| ToHaveLength (length : jsval)
| ToBeObject
| ToHaveHeader (headerName : string) (headerValue : jsval)
| ToContain (expectedData : jsval)
| ToEqual (expectedData : jsval)
| ToRespondWithin (maxTime : jsval)
| And.

(** [receiver.check(...)] for an engine instance at [this]. *)
Definition invoke (E : externals) (c : check) (this : loc) : M jsval :=
  match c with
  | ToHaveStatus s => toHaveStatus E this s
  | ToHaveStatusInRange lo hi => toHaveStatusInRange E this lo hi
  | ToHaveBody => toHaveBody E this
  | ToHaveEmptyBody => toHaveEmptyBody E this
  | ToHaveProperty p => toHaveProperty E this p
  | ToHaveProperties ps => toHaveProperties E this ps
  | ToMatchSchema s => toMatchSchema E this s
  | ToBeArray => toBeArray E this
  | ToHaveLength n => toHaveLength E this n
  | ToBeObject => toBeObject E this
  | ToHaveHeader n v => toHaveHeader E this n v
  | ToContain d => toContain E this d
  | ToEqual d => toEqual E this d
  | ToRespondWithin t => toRespondWithin E this t
  | And => and this
  end.

(** A call chain [receiver.c1(...).c2(...)...]: each check is invoked on
    what the previous one returned. *)
Fixpoint chain (E : externals) (checks : list check) (receiver : jsval) : M jsval :=
  match checks with
  | [] => mret receiver
  | c :: rest =>
      match receiver with
      | JRef this => invoke E c this ≫= chain E rest
      | _ => throw TypeError
      end
  end.

(** The same checks, each invoked on the one instance [this]. *)
Definition invoke_all (E : externals) (checks : list check) (this : loc) : M () :=
  forEach checks (λ c, invoke E c this ≫= λ _, mret ()).

End Fluent.

(** ** http/HttpClient.js *)

Module Http.

Inductive verb : Type := GET | POST | PUT | PATCH | DELETE | HEAD | OPTIONS.

(** [this.client.defaults] of the wrapped axios instance: the base URL, the
    timeout, [headers.common], and the remaining header groups. *)
Record axios_defaults : Type := {
  baseURL : string;
  timeout : Z;
  headers_common : gmap string string;
  headers_scoped : gmap string (gmap string string)
}.

Inductive level : Type := DebugLevel | ErrorLevel.

Record log_entry : Type := {
  entry_level : level;
  entry_message : string
}.

(** An [HttpClient] instance: the configuration it was built from, the
    defaults of its axios instance, and what its logger has recorded.  The
    constructor hands the configuration to [axios.create]; the state it
    leaves is taken as given here. *)
Record HttpClient : Type := {
  config : JS.value;
  defaults : axios_defaults;
  logged : list log_entry
}.

Definition log (l : level) (message : string) (c : HttpClient) : HttpClient :=
  {| config := config c; defaults := defaults c;
     logged := logged c ++ [{| entry_level := l; entry_message := message |}] |}.

Definition with_common (f : gmap string string → gmap string string) (c : HttpClient)
  : HttpClient :=
  {| config := config c;
     defaults := {| baseURL := baseURL (defaults c);
                    timeout := timeout (defaults c);
                    headers_common := f (headers_common (defaults c));
                    headers_scoped := headers_scoped (defaults c) |};
     logged := logged c |}.

(** [setDefaultHeaders(headers)]: [Object.assign] onto [headers.common] *)
Definition setDefaultHeaders (headers : gmap string string) (c : HttpClient) : HttpClient :=
  log DebugLevel "Updated default headers" (with_common (λ common, headers ∪ common) c).

(** [setAuthorization(token, type = 'Bearer')]; [None] is an omitted [type]. *)
Definition setAuthorization (token : string) (type : option string) (c : HttpClient)
  : HttpClient :=
  let type := default "Bearer" type in
  log DebugLevel "Set authorization header"
    (with_common (λ common, <["Authorization" := type +:+ " " +:+ token]> common) c).

(** [clearAuthorization()] *)
Definition clearAuthorization (c : HttpClient) : HttpClient :=
  log DebugLevel "Cleared authorization header"
    (with_common (λ common, delete "Authorization" common) c).

(** [setBaseUrl(baseUrl)] *)
Definition setBaseUrl (url : string) (c : HttpClient) : HttpClient :=
  log DebugLevel "Updated base URL"
    {| config := config c;
       defaults := {| baseURL := url;
                      timeout := timeout (defaults c);
                      headers_common := headers_common (defaults c);
                      headers_scoped := headers_scoped (defaults c) |};
       logged := logged c |}.

(** [getConfig()] *)
Definition getConfig (c : HttpClient) : string * Z * gmap string string :=
  (baseURL (defaults c), timeout (defaults c), headers_common (defaults c)).

Definition verb_name (v : verb) : string :=
  match v with
  | GET => "GET" | POST => "POST" | PUT => "PUT" | PATCH => "PATCH"
  | DELETE => "DELETE" | HEAD => "HEAD" | OPTIONS => "OPTIONS"
  end.

Section Calls.
Context {response failure : Type}.

(** The axios instance: how a call settles, given the defaults current when
    it is dispatched, the verb, the URL, the body and the per-call
    configuration.  It reads the defaults and does not write them. *)
Variable transport :
  axios_defaults → verb → string → JS.value → JS.value → response + failure.
Variable response_status : response → string.
Variable failure_status : failure → option string.

(** [get], [post], [put], [patch], [delete], [head], [options]: the call is
    handed to the axios instance; the interceptors log the request, then the
    response or the failure. *)
Definition call (v : verb) (url : string) (data cfg : JS.value) (c : HttpClient)
  : (response + failure) * HttpClient :=
  let c := log DebugLevel ("Making " +:+ verb_name v +:+ " request to " +:+ url) c in
  match transport (defaults c) v url data cfg with
  | inl r =>
      (inl r, log DebugLevel ("Received " +:+ response_status r +:+ " response from " +:+ url) c)
  | inr e =>
      (inr e, log ErrorLevel ("HTTP Error: " +:+ default "Unknown" (failure_status e)) c)
  end.

(** The seven verb methods; an omitted [data] or [config] is [{}]. *)
Definition get (url : string) (cfg : option JS.value) :=
  call GET url JS.VUndefined (default (JS.VObj []) cfg).
Definition post (url : string) (data cfg : option JS.value) :=
  call POST url (default (JS.VObj []) data) (default (JS.VObj []) cfg).
Definition put (url : string) (data cfg : option JS.value) :=
  call PUT url (default (JS.VObj []) data) (default (JS.VObj []) cfg).
Definition patch (url : string) (data cfg : option JS.value) :=
  call PATCH url (default (JS.VObj []) data) (default (JS.VObj []) cfg).
Definition delete (url : string) (cfg : option JS.value) :=
  call DELETE url JS.VUndefined (default (JS.VObj []) cfg).
Definition head (url : string) (cfg : option JS.value) :=
  call HEAD url JS.VUndefined (default (JS.VObj []) cfg).
Definition options (url : string) (cfg : option JS.value) :=
  call OPTIONS url JS.VUndefined (default (JS.VObj []) cfg).

(** A sequence of calls on one instance. *)
Fixpoint calls (l : list (verb * string * JS.value * JS.value)) (c : HttpClient)
  : HttpClient :=
  match l with
  | [] => c
  | (v, url, data, cfg) :: rest => calls rest (snd (call v url data cfg c))
  end.

End Calls.

End Http.

(** ** Concrete inputs used by the examples below *)

Module Samples.

(** A realm in which the built-ins other than [Object.prototype] expose
    nothing.  The results below hold for every realm; this one serves to
    run the code on examples. *)
Definition bare_realm : JS.realm :=
  {| JS.builtin_has := λ _ _, false;
     JS.builtin_get := λ _ _ _, Ok JS.VUndefined;
     JS.builtin_isArray := λ b, String.eqb b "Array.prototype";
     JS.builtin_toString := λ b, Ok ("function " +:+ b +:+ "() { [native code] }");
     JS.exotic_toString := λ _, Throw TypeError |}.

(** An operation that rejects with the attempt number on its first [k]
    invocations and fulfils afterwards; its state counts the invocations. *)
Definition flaky (k : nat) : @Retry.operation nat string nat :=
  λ n, (if (n <? k)%nat then Retry.Rejected n else Retry.Fulfilled "done", S n).

(** [config.js] with header overrides added to the staging environment. *)
Definition config_with_staging_headers : JS.value :=
  JS.VObj [
    ("baseUrl", JS.VStr "https://jsonplaceholder.typicode.com");
    ("headers", JS.VObj [
       ("Content-Type", JS.VStr "application/json");
       ("Accept", JS.VStr "application/json") ]);
    ("timeout", JS.VNum 10000);
    ("environments", JS.VObj [
       ("development", JS.VObj [ ("timeout", JS.VNum 15000) ]);
       ("staging", JS.VObj [
          ("timeout", JS.VNum 10000);
          ("headers", JS.VObj [
             ("Accept", JS.VStr "text/plain");
             ("X-Env", JS.VStr "staging") ]) ]) ])
  ].

(** Externals that look at own properties only and compare without
    descending into objects. *)
Definition own_property (h : Fluent.heap) (v : Fluent.jsval) (name : string) : bool :=
  match v with
  | Fluent.JRef l =>
      match h !! l with
      | Some (Fluent.OObj props) => bool_decide (is_Some (Fluent.assoc name props))
      | Some (Fluent.OArr elems) =>
          bool_decide (name ∈ "length" :: JS.index_keys (length elems))
      | _ => false
      end
  | _ => false
  end.

Definition shallow_externals : Fluent.externals :=
  {| Fluent.to_string := λ h v,
       Ok match v with
          | Fluent.JUndefined => "undefined"
          | Fluent.JNull => "null"
          | Fluent.JBool b => if b then "true" else "false"
          | Fluent.JNum n => pretty n
          | Fluent.JStr s => s
          | Fluent.JRef _ => "[object Object]"
          end;
     Fluent.inherited := λ _ _ _, Ok Fluent.JUndefined;
     Fluent.has_property := own_property;
     Fluent.length_matches := λ h v n,
       match v with
       | Fluent.JRef l =>
           match h !! l with
           | Some (Fluent.OArr elems) =>
               Fluent.strict_equals (Fluent.JNum (Z.of_nat (length elems))) n
           | _ => false
           end
       | Fluent.JStr s => Fluent.strict_equals (Fluent.JNum (Z.of_nat (String.length s))) n
       | _ => false
       end;
     Fluent.deep_includes := λ _ v w, Fluent.strict_equals v w;
     Fluent.deep_equals := λ _ v w, Fluent.strict_equals v w;
     Fluent.toLowerCase := λ s, s |}.

(** A heap holding the snapshot [{status: 200, data: {id: 1, title: "x"}}]
    at location 2, and one holding [{status: 204, data: []}]; in both the
    engine instance wrapping the snapshot is at location 3. *)
Definition heap_scenario_B : Fluent.heap :=
  {[ 1%positive := Fluent.OObj [("id", Fluent.JNum 1); ("title", Fluent.JStr "x")];
     2%positive := Fluent.OObj [("status", Fluent.JNum 200); ("data", Fluent.JRef 1%positive)];
     3%positive := Fluent.OObj [("actual", Fluent.JRef 2%positive)] ]}.

Definition heap_empty_array_body : Fluent.heap :=
  {[ 1%positive := Fluent.OArr [];
     2%positive := Fluent.OObj [("status", Fluent.JNum 204); ("data", Fluent.JRef 1%positive)];
     3%positive := Fluent.OObj [("actual", Fluent.JRef 2%positive)] ]}.

(** A client instance for the examples. *)
Definition client : Http.HttpClient :=
  {| Http.config := Config.config;
     Http.defaults :=
       {| Http.baseURL := "https://jsonplaceholder.typicode.com";
          Http.timeout := 15000;
          Http.headers_common := {[ "Accept" := "application/json, text/plain, */*" ]};
          Http.headers_scoped := ∅ |};
     Http.logged := [] |}.

(** The axios instance of the examples answers every call with status 200. *)
Definition transport_200 (_ : Http.axios_defaults) (_ : Http.verb) (_ : string)
    (_ _ : JS.value) : Z + () :=
  inl 200.

(** [httpClient.delete('/posts/4')] *)
Definition delete_post_4 : list (Http.verb * string * JS.value * JS.value) :=
  [(Http.DELETE, "/posts/4", JS.VUndefined, JS.VObj [])].

End Samples.

(** ** Text: whitespace, [trim], and the regular expressions of the DTOs *)

Module Text.
Import Stdlib.Strings.Ascii.

(** A string is read as a sequence of characters U+0000 to U+00FF.  The
    white space and line terminator characters in that range are the ones
    that [String.prototype.trim] strips and that [\s] matches. *)
Definition is_whitespace (c : ascii) : bool :=
  bool_decide (nat_of_ascii c ∈ [9; 10; 11; 12; 13; 32; 160]%nat).

Fixpoint trimStart (l : list ascii) : list ascii :=
  match l with
  | [] => []
  | c :: rest => if is_whitespace c then trimStart rest else l
  end.

Definition trimEnd (l : list ascii) : list ascii :=
  rev (trimStart (rev l)).

(** [s.trim()] *)
Definition trim (s : string) : string :=
  String.string_of_list_ascii (trimEnd (trimStart (String.list_ascii_of_string s))).

(** Regular expressions, as far as the patterns of this repository need
    them: character classes, sequence, alternation, repetition. *)
Inductive regex : Type :=
| Never
| Empty
| Class (p : ascii → bool)
| Seq (r1 r2 : regex)
| Alt (r1 r2 : regex)
| Star (r : regex).

(** [r+] *)
Definition Plus (r : regex) : regex := Seq r (Star r).

(** The words of a regular expression. *)
Inductive matches : regex → list ascii → Prop :=
| matches_Empty : matches Empty []
| matches_Class p c : p c = true → matches (Class p) [c]
| matches_Seq r1 r2 w1 w2 : matches r1 w1 → matches r2 w2 → matches (Seq r1 r2) (w1 ++ w2)
| matches_Alt_l r1 r2 w : matches r1 w → matches (Alt r1 r2) w
| matches_Alt_r r1 r2 w : matches r2 w → matches (Alt r1 r2) w
| matches_Star_nil r : matches (Star r) []
| matches_Star_cons r w1 w2 :
    matches r w1 → matches (Star r) w2 → matches (Star r) (w1 ++ w2).

(** Matching by derivatives. *)
Fixpoint nullable (r : regex) : bool :=
  match r with
  | Never => false
  | Empty => true
  | Class _ => false
  | Seq r1 r2 => nullable r1 && nullable r2
  | Alt r1 r2 => nullable r1 || nullable r2
  | Star _ => true
  end.

Fixpoint derive (c : ascii) (r : regex) : regex :=
  match r with
  | Never => Never
  | Empty => Never
  | Class p => if p c then Empty else Never
  | Seq r1 r2 =>
      if nullable r1 then Alt (Seq (derive c r1) r2) (derive c r2)
      else Seq (derive c r1) r2
  | Alt r1 r2 => Alt (derive c r1) (derive c r2)
  | Star r1 => Seq (derive c r1) (Star r1)
  end.

Fixpoint accepts (r : regex) (w : list ascii) : bool :=
  match w with
  | [] => nullable r
  | c :: rest => accepts (derive c r) rest
  end.

(** [/^r$/.test(s)]: with both anchors and no flags, the whole of [s] must
    be a word of [r]. *)
Definition test_anchored (r : regex) (s : string) : bool :=
  accepts r (String.list_ascii_of_string s).

(** [[^\s@]] *)
Definition not_space_or_at (c : ascii) : bool :=
  negb (is_whitespace c || Ascii.eqb c "@").

(** [/^[^\s@]+@[^\s@]+\.[^\s@]+$/], without its anchors *)
Definition emailRegex : regex :=
  Seq (Plus (Class not_space_or_at))
    (Seq (Class (Ascii.eqb "@"))
       (Seq (Plus (Class not_space_or_at))
          (Seq (Class (Ascii.eqb "."))
             (Plus (Class not_space_or_at))))).

(** [isValidEmail(email)] of [CommentDTO] and [UserDTO] *)
Definition isValidEmail (email : string) : bool :=
  test_anchored emailRegex email.

(** A part of an address: not empty, and free of white space and of [@]. *)
Definition address_part (part : string) : Prop :=
  part ≠ EmptyString
  ∧ Forall (λ c, not_space_or_at c = true) (String.list_ascii_of_string part).

End Text.

(** ** dto/PostDTO.js, dto/CommentDTO.js *)

Module DTO.
Import JS.

(** [a || b] *)
Definition or_else (a b : value) : value :=
  if truthy a then a else b.

(** A parameter with a default: the default replaces [undefined] only. *)
Definition default_to (d v : value) : value :=
  match v with
  | VUndefined => d
  | _ => v
  end.

(** [o.k !== undefined ? o.k : current] *)
Definition override (R : realm) (overrides : value) (k : string) (current : value)
  : result value :=
  v ← get R overrides k;
  Ok match v with
     | VUndefined => current
     | _ => v
     end.

(** [v !== null && (typeof v !== 'number' || v <= 0)] *)
Definition not_positive_number (v : value) : bool :=
  negb (is_null v)
  && match v with
     | VNum n => n <=? 0
     | _ => true
     end.

(** [typeof v !== 'string' || v.trim().length === 0] *)
Definition not_nonempty_string (v : value) : bool :=
  match v with
  | VStr s => (String.length (Text.trim s) =? 0)%nat
  | _ => true
  end.

(** [v || fallback] evaluates to [v]. *)
Definition kept_by_or (fallback v : value) : Prop :=
  truthy v = true ∨ v = fallback.


(** A string with at least one character that is not white space. *)
Definition nonblank_string (v : value) : Prop :=
  ∃ s, v = VStr s
       ∧ Exists (λ c, Text.is_whitespace c = false) (String.list_ascii_of_string s).

(** The result of the [validate()] methods. *)
Record validation : Type := {
  isValid : bool;
  errors : list string
}.

Definition report (errors : list string) : validation :=
  {| isValid := bool_decide (length errors = 0%nat); errors := errors |}.

(** [errors.push(message)] under a condition *)
Definition push_if (condition : bool) (message : string) (errors : list string)
  : list string :=
  if condition then errors ++ [message] else errors.

Module PostDTO.

Record instance : Type := {
  id : value;
  userId : value;
  title : value;
  body : value
}.

(** [new PostDTO(id = null, userId = null, title = '', body = '')] *)
Definition constructor (id userId title body : value) : instance :=
  {| id := default_to VNull id;
     userId := default_to VNull userId;
     title := default_to (VStr EmptyString) title;
     body := default_to (VStr EmptyString) body |}.

(** [PostDTO.fromJson(json)] *)
Definition fromJson (R : realm) (json : value) : result instance :=
  id ← get R json "id";
  userId ← get R json "userId";
  title ← get R json "title";
  body ← get R json "body";
  Ok (constructor (or_else id VNull) (or_else userId VNull)
        (or_else title (VStr EmptyString)) (or_else body (VStr EmptyString))).

(** [toJson()] *)
Definition toJson (this : instance) : value :=
  let result := [("userId", userId this); ("title", title this); ("body", body this)] in
  VObj (if negb (is_null (id this)) then obj_set result "id" (id this) else result).

(** [validate()] *)
Definition validate (this : instance) : validation :=
  let errors := [] in
  let errors := push_if (not_positive_number (userId this))
                  "userId must be a positive number" errors in
  let errors := push_if (not_nonempty_string (title this))
                  "title must be a non-empty string" errors in
  let errors := push_if (not_nonempty_string (body this))
                  "body must be a non-empty string" errors in
  let errors := push_if (not_positive_number (id this))
                  "id must be a positive number if provided" errors in
  report errors.

(** [copy(overrides = {})] *)
Definition copy (R : realm) (this : instance) (overrides : value) : result instance :=
  let overrides := default_to (VObj []) overrides in
  id ← override R overrides "id" (id this);
  userId ← override R overrides "userId" (userId this);
  title ← override R overrides "title" (title this);
  body ← override R overrides "body" (body this);
  Ok (constructor id userId title body).

End PostDTO.

Module CommentDTO.

Record instance : Type := {
  id : value;
  postId : value;
  name : value;
  email : value;
  body : value
}.

(** [new CommentDTO(id = null, postId = null, name = '', email = '', body = '')] *)
Definition constructor (id postId name email body : value) : instance :=
  {| id := default_to VNull id;
     postId := default_to VNull postId;
     name := default_to (VStr EmptyString) name;
     email := default_to (VStr EmptyString) email;
     body := default_to (VStr EmptyString) body |}.

(** [CommentDTO.fromJson(json)] *)
Definition fromJson (R : realm) (json : value) : result instance :=
  id ← get R json "id";
  postId ← get R json "postId";
  name ← get R json "name";
  email ← get R json "email";
  body ← get R json "body";
  Ok (constructor (or_else id VNull) (or_else postId VNull)
        (or_else name (VStr EmptyString)) (or_else email (VStr EmptyString))
        (or_else body (VStr EmptyString))).

(** [toJson()] *)
Definition toJson (this : instance) : value :=
  let result := [("postId", postId this); ("name", name this);
                 ("email", email this); ("body", body this)] in
  VObj (if negb (is_null (id this)) then obj_set result "id" (id this) else result).

(** The [email] branch of [validate()]: the format is looked at only when
    the value is a string that is not blank. *)
Definition push_email (email : value) (errors : list string) : list string :=
  if not_nonempty_string email then errors ++ ["email must be a non-empty string"]
  else match email with
       | VStr s => push_if (negb (Text.isValidEmail s))
                     "email must be a valid email address" errors
       | _ => errors
       end.

(** [validate()] *)
Definition validate (this : instance) : validation :=
  let errors := [] in
  let errors := push_if (not_positive_number (postId this))
                  "postId must be a positive number" errors in
  let errors := push_if (not_nonempty_string (name this))
                  "name must be a non-empty string" errors in
  let errors := push_email (email this) errors in
  let errors := push_if (not_nonempty_string (body this))
                  "body must be a non-empty string" errors in
  let errors := push_if (not_positive_number (id this))
                  "id must be a positive number if provided" errors in
  report errors.

(** [copy(overrides = {})] *)
Definition copy (R : realm) (this : instance) (overrides : value) : result instance :=
  let overrides := default_to (VObj []) overrides in
  id ← override R overrides "id" (id this);
  postId ← override R overrides "postId" (postId this);
  name ← override R overrides "name" (name this);
  email ← override R overrides "email" (email this);
  body ← override R overrides "body" (body this);
  Ok (constructor id postId name email body).

End CommentDTO.

End DTO.

(** ** RESTAPI/utils/test-utils.js: the data generators *)

Module TestUtils.
Import JS.

(** [array[i]] for an array literal: [undefined] beyond its end *)
Definition element (array : list value) (i : nat) : value :=
  default VUndefined (array !! i).

Definition titles : list value :=
  [ VStr "Test Post Title"; VStr "Another Test Post"; VStr "Sample Content";
    VStr "Random Post"; VStr "Generated Test Data" ].

Definition bodies : list value :=
  [ VStr "This is a test post body with some content.";
    VStr "Another test post with different content.";
    VStr "Sample post content for testing purposes.";
    VStr "Random content generated for test cases.";
    VStr "Test data body with various information." ].

(** [generateRandomPostData(overrides = {})].  [Math.random] is an input:
    [draw1], [draw2], [draw3] are the values its three uses
    [Math.floor(Math.random() * n)] take, in evaluation order. *)
Definition generateRandomPostData (draw1 draw2 draw3 : nat) (overrides : value) : value :=
  let overrides := DTO.default_to (VObj []) overrides in
  VObj (spread [ ("userId", VNum (Z.of_nat draw1 + 1));
                 ("title", element titles draw2);
                 ("body", element bodies draw3) ] overrides).

Definition names : list value :=
  [ VStr "John Doe"; VStr "Jane Smith"; VStr "Bob Johnson"; VStr "Alice Brown";
    VStr "Charlie Wilson" ].

Definition emails : list value :=
  [ VStr "john@example.com"; VStr "jane@example.com"; VStr "bob@example.com";
    VStr "alice@example.com"; VStr "charlie@example.com" ].

(** [generateRandomCommentData(postId, overrides = {})]; [draw1] is used
    only when [postId] is falsy. *)
Definition generateRandomCommentData (draw1 draw2 draw3 : nat) (postId overrides : value)
  : value :=
  let overrides := DTO.default_to (VObj []) overrides in
  VObj (spread [ ("postId", if truthy postId then postId else VNum (Z.of_nat draw1 + 1));
                 ("name", element names draw2);
                 ("email", element emails draw3);
                 ("body", VStr "This is a test comment with some content for testing purposes.") ]
          overrides).

(** [createTestFixtures()] *)
Definition validPost : list (string * value) :=
  [ ("userId", VNum 1); ("title", VStr "Test Post");
    ("body", VStr "This is a test post body") ].

Definition invalidPost : list (string * value) :=
  [ ("userId", VStr "invalid"); ("title", VStr EmptyString); ("body", VNull) ].

Definition validComment : list (string * value) :=
  [ ("postId", VNum 1); ("name", VStr "Test User"); ("email", VStr "test@example.com");
    ("body", VStr "This is a test comment") ].

Definition postSchema : list (string * value) :=
  [ ("id", VStr "number"); ("userId", VStr "number"); ("title", VStr "string");
    ("body", VStr "string") ].

Definition commentSchema : list (string * value) :=
  [ ("id", VStr "number"); ("postId", VStr "number"); ("name", VStr "string");
    ("email", VStr "string"); ("body", VStr "string") ].

Definition createTestFixtures : value :=
  VObj [ ("validPost", VObj validPost); ("invalidPost", VObj invalidPost);
         ("validComment", VObj validComment); ("postSchema", VObj postSchema);
         ("commentSchema", VObj commentSchema) ].

End TestUtils.

(** ** Notions used to describe what [validateResponseSchema] reports *)

Module Schema.
Import JS.

(** [key in obj] is [false]. *)
Definition is_missing (R : realm) (obj : value) (key : string) : bool :=
  match has_property R key obj with
  | Ok false => true
  | _ => false
  end.

(** The messages for the keys among [keys] that [obj] lacks, in order. *)
Definition missing_messages (R : realm) (obj : value) (path : string) (keys : list string)
  : list string :=
  (λ key, "Missing property: " +:+ Validator.full_path path key)
    <$> filter (λ key, is_missing R obj key = true) keys.

(** [obj] has [key], and what it holds there is of the type named [type]:
    an array for ['array'], a value whose [typeof] is [type] otherwise. *)
Definition conforms (R : realm) (obj : value) (key type : string) : Prop :=
  has_property R key obj = Ok true
  ∧ ∃ v, get R obj key = Ok v
         ∧ if String.eqb type "array" then isArray R v = true else typeof v = type.

End Schema.

(** ** Further examples *)

Module Scenarios.

(** A response whose body is the [validPost] fixture. *)
Definition response_validPost : JS.value :=
  JS.VObj [ ("status", JS.VNum 201); ("data", JS.VObj TestUtils.validPost) ].

(** A response whose body holds a nested object. *)
Definition response_nested : JS.value :=
  JS.VObj [ ("status", JS.VNum 200);
            ("data", JS.VObj [ ("id", JS.VNum 1);
                               ("address", JS.VObj [ ("city", JS.VStr "Gwenborough") ]) ]) ].

(** [heap_scenario_B] of the samples with the schema
    [{id: 'number', title: 'string'}] at location 4. *)
Definition heap_with_schema : Fluent.heap :=
  <[ 4%positive := Fluent.OObj [ ("id", Fluent.JStr "number");
                                 ("title", Fluent.JStr "string") ] ]>
    Samples.heap_scenario_B.

End Scenarios.

(** * Properties *)

(** ** Retry with backoff *)

Section RetryProps.
Import Retry.
Context {S V E : Type}.
Implicit Types (fn : @operation S V E) (s : S) (trace : list event).

Lemma invocations_app trace1 trace2 :
  invocations (trace1 ++ trace2) = (invocations trace1 + invocations trace2)%nat.
Proof. unfold invocations. by rewrite filter_app, length_app. Qed.

Lemma nth_outcome_succ fn s i :
  nth_outcome fn s (Datatypes.S i) = nth_outcome fn (snd (fn s)) i.
Proof. reflexivity. Qed.

Lemma events_from_succ initialDelay attempt k :
  1 ≤ attempt →
  events_from initialDelay attempt (Datatypes.S k)
  = Invoke :: Delay (initialDelay * 2 ^ (attempt - 1))
      :: events_from initialDelay (attempt + 1) k.
Proof.
  intros Hattempt. unfold events_from. cbn [seq flat_map app].
  rewrite Z.add_0_r. do 2 f_equal. f_equal.
  rewrite <- seq_shift, flat_map_concat_map, map_map, <- flat_map_concat_map.
  apply flat_map_ext. intros i. do 3 f_equal. f_equal. f_equal. lia.
Qed.

Lemma events_from_one initialDelay k :
  events_from initialDelay 1 k = backoff_trace initialDelay k.
Proof.
  reflexivity.
Qed.

(** The loop when the first [k] attempts from [attempt] on fail and the
    next one ends the run: by fulfilling, or by being attempt number
    [maxAttempts]. *)
Lemma retry_loop_run fn maxAttempts initialDelay k :
  ∀ budget attempt s trace,
    1 ≤ attempt →
    (k ≤ budget)%nat →
    attempt + Z.of_nat k ≤ maxAttempts →
    (∀ i, (i < k)%nat → fails (nth_outcome fn s i)) →
    (attempt + Z.of_nat k = maxAttempts ∨ ¬ fails (nth_outcome fn s k)) →
    retry_loop budget fn maxAttempts initialDelay attempt s trace
    = Some (match nth_outcome fn s k with
            | Fulfilled v => Returned v
            | Rejected e => Thrown e
            end,
            snd (fn (state_before fn s k)),
            trace ++ events_from initialDelay attempt k).
Proof.
  induction k as [|k IH]; intros budget attempt s trace Hattempt Hbudget Hle Hfail Hend.
  - unfold nth_outcome in *. cbn [state_before] in *.
    destruct budget; cbn [retry_loop];
      (destruct (Z.leb_spec attempt maxAttempts); [|lia]);
      destruct (fn s) as [[v|e] s1]; cbn [fst snd] in *; try reflexivity;
      (destruct Hend as [Hlast|Hok]; [|by destruct Hok]);
      (destruct (Z.eqb_spec attempt maxAttempts); [reflexivity|lia]).
  - destruct budget as [|budget]; [lia|].
    pose proof (Hfail 0%nat ltac:(lia)) as Hfirst.
    rewrite nth_outcome_succ. cbn [state_before].
    unfold nth_outcome in Hfirst. cbn [state_before] in Hfirst.
    cbn [retry_loop].
    destruct (Z.leb_spec attempt maxAttempts); [|lia].
    destruct (fn s) as [[v|e] s1] eqn:Hfn; cbn [fst snd] in *; [done|].
    destruct (Z.eqb_spec attempt maxAttempts); [lia|].
    rewrite (IH budget (attempt + 1) s1); try lia.
    + rewrite events_from_succ by done.
      by rewrite <- !app_assoc.
    + intros i Hi. specialize (Hfail (Datatypes.S i) ltac:(lia)).
      rewrite nth_outcome_succ, Hfn in Hfail. exact Hfail.
    + destruct Hend as [Hlast|Hok]; [left; lia|right].
      rewrite nth_outcome_succ, Hfn in Hok. exact Hok.
Qed.

Lemma invocations_attempts (delay_of : nat → Z) start k :
  invocations (flat_map (λ i : nat, [Invoke; Delay (delay_of i)]) (seq start k)) = k.
Proof.
  revert start. induction k as [|k IH]; intros start; [reflexivity|].
  cbn [seq flat_map]. rewrite invocations_app, IH. reflexivity.
Qed.

Lemma invocations_events_from initialDelay attempt k :
  invocations (events_from initialDelay attempt k) = Datatypes.S k.
Proof.
  unfold events_from. rewrite invocations_app, invocations_attempts.
  change (invocations [Invoke]) with 1%nat. lia.
Qed.

Lemma waits_attempts (delay_of : nat → Z) start k :
  waits (flat_map (λ i : nat, [Invoke; Delay (delay_of i)]) (seq start k))
  = delay_of <$> seq start k.
Proof.
  revert start. induction k as [|k IH]; intros start; [reflexivity|].
  cbn [seq flat_map]. unfold waits in *. rewrite omap_app, IH. reflexivity.
Qed.

Lemma waits_backoff_trace initialDelay k :
  waits (backoff_trace initialDelay k)
  = (λ i : nat, initialDelay * 2 ^ Z.of_nat i) <$> seq 0 k.
Proof.
  unfold backoff_trace. unfold waits at 1. rewrite omap_app.
  fold (waits (flat_map (λ i : nat, [Invoke; Delay (initialDelay * 2 ^ Z.of_nat i)]) (seq 0 k))).
  rewrite (waits_attempts (λ i : nat, initialDelay * 2 ^ Z.of_nat i)).
  cbn [omap]. apply app_nil_r.
Qed.

(** Every run ends, after at most [maxAttempts] invocations. *)
Lemma retry_loop_total fn maxAttempts initialDelay :
  ∀ budget attempt s trace,
    maxAttempts - attempt ≤ Z.of_nat budget →
    ∃ c s' trace',
      retry_loop budget fn maxAttempts initialDelay attempt s trace = Some (c, s', trace')
      ∧ (invocations trace' ≤ invocations trace + Z.to_nat (maxAttempts - attempt + 1))%nat.
Proof.
  induction budget as [|budget IH]; intros attempt s trace Hbudget.
  - cbn [retry_loop]. destruct (Z.leb_spec attempt maxAttempts).
    + destruct (fn s) as [[v|e] s1].
      * eexists _, _, _. split; [reflexivity|]. rewrite invocations_app. change (invocations [Invoke]) with 1%nat. lia.
      * destruct (Z.eqb_spec attempt maxAttempts); [|lia].
        eexists _, _, _. split; [reflexivity|]. rewrite invocations_app. change (invocations [Invoke]) with 1%nat. lia.
    + eexists _, _, _. split; [reflexivity|]. lia.
  - cbn [retry_loop]. destruct (Z.leb_spec attempt maxAttempts).
    + destruct (fn s) as [[v|e] s1].
      * eexists _, _, _. split; [reflexivity|]. rewrite invocations_app. change (invocations [Invoke]) with 1%nat. lia.
      * destruct (Z.eqb_spec attempt maxAttempts).
        { eexists _, _, _. split; [reflexivity|]. rewrite invocations_app. change (invocations [Invoke]) with 1%nat. lia. }
        destruct (IH (attempt + 1) s1 ((trace ++ [Invoke]) ++ [Delay (initialDelay * 2 ^ (attempt - 1))]))
          as (c & s' & trace' & Hrun & Hcount); [lia|].
        eexists _, _, _. split; [exact Hrun|].
        rewrite !invocations_app in Hcount.
        change (invocations [Invoke]) with 1%nat in Hcount.
        change (invocations [Delay _]) with 0%nat in Hcount. lia.
    + eexists _, _, _. split; [reflexivity|]. lia.
Qed.

(** C1. For [maxAttempts >= 1], [retryWithBackoff] invokes the operation at
    most [maxAttempts] times.  If the first [k] invocations reject and the
    next one fulfils with [v] ([k < maxAttempts]), the run returns [v] after
    exactly [k + 1] invocations.  If all [maxAttempts] invocations reject,
    the run throws the very value the last invocation rejected with, after
    exactly [maxAttempts] invocations. *)
Theorem retryWithBackoff_attempts fn (maxAttempts initialDelay : Z) s :
  1 ≤ maxAttempts →
  (∃ c s' trace,
      retryWithBackoff fn (Some maxAttempts) (Some initialDelay) s = Some (c, s', trace)
      ∧ (invocations trace ≤ Z.to_nat maxAttempts)%nat)
  ∧ (∀ (k : nat) (v : V),
        Z.of_nat k < maxAttempts →
        (∀ i, (i < k)%nat → fails (nth_outcome fn s i)) →
        nth_outcome fn s k = Fulfilled v →
        ∃ s' trace,
          retryWithBackoff fn (Some maxAttempts) (Some initialDelay) s
          = Some (Returned v, s', trace)
          ∧ invocations trace = Datatypes.S k)
  ∧ (∀ e : E,
        (∀ i, (i < Z.to_nat maxAttempts)%nat → fails (nth_outcome fn s i)) →
        nth_outcome fn s (Z.to_nat maxAttempts - 1) = Rejected e →
        ∃ s' trace,
          retryWithBackoff fn (Some maxAttempts) (Some initialDelay) s
          = Some (Thrown e, s', trace)
          ∧ invocations trace = Z.to_nat maxAttempts).
Proof.
  intros Hmax. unfold retryWithBackoff. cbn [default from_option id]. repeat split.
  - destruct (retry_loop_total fn maxAttempts initialDelay
                (Z.to_nat maxAttempts) 1 s []) as (c & s' & trace & Hrun & Hcount); [lia|].
    exists c, s', trace. split; [exact Hrun|].
    change (invocations []) with 0%nat in Hcount.
    replace (maxAttempts - 1 + 1) with maxAttempts in Hcount by lia. lia.
  - intros k v Hk Hfail Hok.
    rewrite (retry_loop_run fn maxAttempts initialDelay k); try lia; try done.
    + rewrite Hok. eexists _, _. split; [reflexivity|].
      apply invocations_events_from.
    + right. rewrite Hok. intros [].
  - intros e Hfail Hlast.
    rewrite (retry_loop_run fn maxAttempts initialDelay (Z.to_nat maxAttempts - 1));
      try lia.
    + rewrite Hlast. eexists _, _. split; [reflexivity|].
      cbn [app]. rewrite invocations_events_from. lia.
    + intros i Hi. apply Hfail. lia.
Qed.

(** C2. Let [k] be the number of failed attempts before the attempt that
    ends the run (it fulfils, or it is attempt number [maxAttempts]).  The
    run is then exactly: attempt, wait, attempt, wait, ..., attempt, where
    the wait after failed attempt number [i] (from 1) is
    [initialDelay * 2^(i-1)] milliseconds; the last event is an invocation,
    so no wait follows the final attempt. *)
Theorem retryWithBackoff_waits fn (maxAttempts initialDelay : Z) s (k : nat) :
  Z.of_nat k < maxAttempts →
  (∀ i, (i < k)%nat → fails (nth_outcome fn s i)) →
  (Z.of_nat k + 1 = maxAttempts ∨ ¬ fails (nth_outcome fn s k)) →
  ∃ c s' trace,
    retryWithBackoff fn (Some maxAttempts) (Some initialDelay) s = Some (c, s', trace)
    ∧ trace = backoff_trace initialDelay k
    ∧ waits trace = (λ i : nat, initialDelay * 2 ^ Z.of_nat i) <$> seq 0 k
    ∧ last trace = Some Invoke.
Proof.
  intros Hk Hfail Hend. unfold retryWithBackoff. cbn [default from_option id].
  rewrite (retry_loop_run fn maxAttempts initialDelay k); try lia; try done.
  - eexists _, _, _. split; [reflexivity|]. cbn [app].
    rewrite events_from_one. split; [reflexivity|]. split.
    + apply waits_backoff_trace.
    + unfold backoff_trace. apply last_snoc.
  - destruct Hend as [Hlast|Hok]; [left; lia|by right].
Qed.

(** C10. With [maxAttempts <= 0] the loop body never runs: the operation is
    not invoked, nothing is awaited, and the promise resolves with
    [undefined]. *)
Theorem retryWithBackoff_no_attempts fn (maxAttempts : Z) (initialDelay : option Z) s :
  maxAttempts ≤ 0 →
  retryWithBackoff fn (Some maxAttempts) initialDelay s = Some (ReturnedUndefined, s, []).
Proof.
  intros Hmax. unfold retryWithBackoff. cbn [default from_option id].
  destruct (Z.to_nat maxAttempts); cbn [retry_loop];
    by destruct (Z.leb_spec 1 maxAttempts); [lia|].
Qed.

End RetryProps.

Lemma retryWithBackoff_attempts_witness :
  ∃ s' trace,
    Retry.retryWithBackoff (Samples.flaky 2) (Some 3) (Some 100) 0%nat
    = Some (Retry.Returned "done", s', trace)
    ∧ Retry.invocations trace = 3%nat.
Proof.
  apply (proj1 (proj2 (retryWithBackoff_attempts (Samples.flaky 2) 3 100 0%nat
                         ltac:(lia))) 2%nat "done").
  - lia.
  - intros [|[|i]] Hi; [exact I|exact I|lia].
  - reflexivity.
Defined.

(** Scenario D: three attempts allowed, 100 ms initial delay, an operation
    failing twice: waits of 100 ms then 200 ms. *)
Lemma retryWithBackoff_waits_witness :
  ∃ c s' trace,
    Retry.retryWithBackoff (Samples.flaky 2) (Some 3) (Some 100) 0%nat = Some (c, s', trace)
    ∧ trace = Retry.backoff_trace 100 2
    ∧ Retry.waits trace = [100; 200]
    ∧ last trace = Some Retry.Invoke.
Proof.
  apply (retryWithBackoff_waits (Samples.flaky 2) 3 100 0%nat 2).
  - lia.
  - intros [|[|i]] Hi; [exact I|exact I|lia].
  - left. lia.
Defined.

Example scenario_D :
  Retry.retryWithBackoff (Samples.flaky 2) (Some 3) (Some 100) 0%nat
  = Some (Retry.Returned "done", 3%nat,
          [Retry.Invoke; Retry.Delay 100; Retry.Invoke; Retry.Delay 200; Retry.Invoke]).
Proof. reflexivity. Qed.

Example always_failing :
  Retry.retryWithBackoff (Samples.flaky 5) (Some 3) (Some 100) 0%nat
  = Some (Retry.Thrown 2%nat, 3%nat,
          [Retry.Invoke; Retry.Delay 100; Retry.Invoke; Retry.Delay 200; Retry.Invoke]).
Proof. reflexivity. Qed.

Lemma retryWithBackoff_no_attempts_witness :
  Retry.retryWithBackoff (Samples.flaky 0) (Some 0) None 0%nat
  = Some (Retry.ReturnedUndefined, 0%nat, []).
Proof.
  apply (retryWithBackoff_no_attempts (Samples.flaky 0) 0 None 0%nat). lia.
Defined.

(** ** Configuration resolution *)

Section ConfigProps.
Import JS Config.
Variable R : realm.

Lemma assoc_obj_set props k k' v :
  assoc k (obj_set props k' v) = if String.eqb k' k then Some v else assoc k props.
Proof.
  induction props as [|[k0 v0] props IH]; cbn [obj_set assoc].
  - by destruct (String.eqb k' k).
  - destruct (String.eqb_spec k0 k') as [->|Hne]; cbn [assoc].
    + by destruct (String.eqb k' k).
    + rewrite IH. destruct (String.eqb_spec k0 k) as [->|]; [|done].
      destruct (String.eqb_spec k' k) as [->|]; done.
Qed.

Lemma assoc_is_Some k props : is_Some (assoc k props) ↔ k ∈ props.*1.
Proof.
  induction props as [|[k0 v0] props IH]; cbn [assoc fmap list_fmap fst].
  - split; [by intros [? ?]|by intros ?%elem_of_nil].
  - rewrite elem_of_cons. destruct (String.eqb_spec k0 k) as [->|Hne].
    + split; [by left|by eexists].
    + rewrite IH. split; [by right|]. intros [->|?]; done.
Qed.

(** Spreading an object over a target: the source's properties win, the
    target's other properties stay. *)
Lemma assoc_spread target src k :
  assoc k (spread target (VObj src))
  = match assoc k src with
    | Some v => Some v
    | None => assoc k target
    end.
Proof.
  unfold spread. cbn [own_keys get_own].
  assert (Hgen : ∀ keys target,
             assoc k (foldl (λ acc k0, match assoc k0 src with
                                       | Some x => obj_set acc k0 x
                                       | None => acc
                                       end) target keys)
             = if bool_decide (k ∈ keys)
               then match assoc k src with
                    | Some v => Some v
                    | None => assoc k target
                    end
               else assoc k target).
  { clear target. induction keys as [|k0 keys IH]; intros target; [done|].
    cbn [foldl]. rewrite IH.
    assert (Hstep : assoc k (match assoc k0 src with
                             | Some x => obj_set target k0 x
                             | None => target
                             end)
                    = if String.eqb k0 k
                      then match assoc k src with
                           | Some v => Some v
                           | None => assoc k target
                           end
                      else assoc k target).
    { destruct (String.eqb_spec k0 k) as [->|Hne].
      - destruct (assoc k src); [|done].
        rewrite assoc_obj_set. by rewrite String.eqb_refl.
      - destruct (assoc k0 src); [|done].
        rewrite assoc_obj_set. by destruct (String.eqb_spec k0 k). }
    rewrite Hstep.
    destruct (String.eqb_spec k0 k) as [->|Hne].
    - rewrite (bool_decide_eq_true_2 (k ∈ k :: keys)) by constructor.
      destruct (bool_decide (k ∈ keys)); by destruct (assoc k src).
    - rewrite (bool_decide_ext (k ∈ k0 :: keys) (k ∈ keys)); [done|].
      rewrite elem_of_cons. split; [intros [Heq|?]; [by subst|done]|by right]. }
  rewrite Hgen. case_bool_decide as Hin; [done|].
  destruct (assoc k src) eqn:Hk; [|done].
  exfalso. apply Hin, assoc_is_Some. by eexists.
Qed.

(** An environment name that is neither configured nor found on
    [Object.prototype] falls back to the development environment. *)
Lemma getEnvironmentConfig_fallback (environment : string) :
  environment ∉ environment_names →
  Object_prototype_has environment = false →
  getEnvironmentConfig R (Some environment) = getEnvironmentConfig R None.
Proof.
  intros Hunknown Hproto.
  assert (Hnames : environment_names = ["development"; "staging"; "production"])
    by reflexivity.
  rewrite Hnames in Hunknown. clear Hnames.
  apply not_elem_of_cons in Hunknown as [Hdev Hunknown].
  apply not_elem_of_cons in Hunknown as [Hsta Hunknown].
  apply not_elem_of_cons in Hunknown as [Hpro _].
  unfold Object_prototype_has in Hproto. apply orb_false_iff in Hproto as [Hp1 Hp2].
  assert (Hselect : select_environment R config environment
                    = select_environment R config "development").
  { unfold select_environment.
    destruct (get R config "environments") as [environments|e] eqn:Henvs; [|done].
    vm_compute in Henvs. injection Henvs as <-.
    cbn [get assoc mbind result_bind]. rewrite String.eqb_refl.
    destruct (String.eqb_spec "development" environment) as [<-|_]; [done|].
    destruct (String.eqb_spec "staging" environment) as [<-|_]; [done|].
    destruct (String.eqb_spec "production" environment) as [<-|_]; [done|].
    unfold Object_prototype_get. rewrite Hp1, Hp2. reflexivity. }
  unfold getEnvironmentConfig, resolve. cbn [default from_option id].
  by rewrite Hselect.
Qed.

(** C3 (the code departs from the claim).  ["__proto__"] is not a key of
    [config.environments], yet [config.environments["__proto__"]] is
    [Object.prototype], which is truthy: the [||] fallback is not taken and
    the development overrides are not applied.  The result keeps the base
    timeout of 10000 where the development configuration has 15000. *)
Theorem getEnvironmentConfig_inherited_name :
("__proto__" ∉ environment_names)
  ∧ select_environment R config "__proto__" = Ok VObjectPrototype
  ∧ ∃ resolved fallback,
      getEnvironmentConfig R (Some "__proto__") = Ok resolved
      ∧ getEnvironmentConfig R (Some "development") = Ok fallback
      ∧ get R resolved "timeout" = Ok (VNum 10000)
      ∧ get R fallback "timeout" = Ok (VNum 15000).
Proof.
  split; [|split].
  - apply (bool_decide_unpack _). by vm_compute.
  - reflexivity.
  - eexists _, _. repeat split; reflexivity.
Qed.

(** C4. Whatever the base header map [base] and the header map [env] of the
    selected environment are, the [headers] of the resolved configuration is
    their union: a key of [env] carries the environment's value, also when
    [base] has it too, and every other key of [base] keeps its base value. *)
Theorem resolve_headers_right_biased (cfg : value) (environment : string)
    (envConfig : value) (base env : list (string * value)) :
  select_environment R cfg environment = Ok envConfig →
  get R cfg "headers" = Ok (VObj base) →
  get R envConfig "headers" = Ok (VObj env) →
  ∃ resolved merged,
    resolve R cfg environment = Ok resolved
    ∧ get R resolved "headers" = Ok (VObj merged)
    ∧ ∀ k, assoc k merged = match assoc k env with
                            | Some v => Some v
                            | None => assoc k base
                            end.
Proof.
  intros Hselect Hbase Henv. unfold resolve.
  rewrite Hselect. cbn [mbind result_bind]. rewrite Hbase, Henv. cbn [mbind result_bind].
  eexists _, _. split; [reflexivity|]. split.
  - cbn [get]. rewrite assoc_obj_set, String.eqb_refl. reflexivity.
  - intros k. rewrite assoc_spread.
    destruct (assoc k env); [done|].
    rewrite assoc_spread. by destruct (assoc k base).
Qed.

End ConfigProps.

Lemma resolve_headers_right_biased_witness :
  ∃ resolved merged,
    Config.resolve Samples.bare_realm Samples.config_with_staging_headers "staging" = Ok resolved
    ∧ JS.get Samples.bare_realm resolved "headers" = Ok (JS.VObj merged)
    ∧ ∀ k, JS.assoc k merged
           = match JS.assoc k [("Accept", JS.VStr "text/plain"); ("X-Env", JS.VStr "staging")] with
             | Some v => Some v
             | None => JS.assoc k [("Content-Type", JS.VStr "application/json");
                                   ("Accept", JS.VStr "application/json")]
             end.
Proof.
  apply (resolve_headers_right_biased Samples.bare_realm
           Samples.config_with_staging_headers "staging"
           (JS.VObj [("timeout", JS.VNum 10000);
                     ("headers", JS.VObj [("Accept", JS.VStr "text/plain");
                                          ("X-Env", JS.VStr "staging")])]));
    reflexivity.
Defined.

Example resolve_staging_headers :
  Config.resolve Samples.bare_realm Samples.config_with_staging_headers "staging"
  ≫= (λ resolved, JS.get Samples.bare_realm resolved "headers")
  = Ok (JS.VObj [("Content-Type", JS.VStr "application/json");
                 ("Accept", JS.VStr "text/plain");
                 ("X-Env", JS.VStr "staging")]).
Proof. reflexivity. Qed.

(** The same happens for the names of the methods of [Object.prototype],
    in a realm where functions have no [headers] property. *)
Example getEnvironmentConfig_toString :
  Config.getEnvironmentConfig Samples.bare_realm (Some "toString")
  ≫= (λ resolved, JS.get Samples.bare_realm resolved "timeout")
  = Ok (JS.VNum 10000).
Proof. reflexivity. Qed.

Example getEnvironmentConfig_unknown :
  Config.getEnvironmentConfig Samples.bare_realm (Some "test")
  ≫= (λ resolved, JS.get Samples.bare_realm resolved "timeout")
  = Ok (JS.VNum 15000).
Proof. reflexivity. Qed.

(** Scenario A: the staging environment of [config.js]. *)
Example scenario_A :
  Config.getEnvironmentConfig Samples.bare_realm (Some "staging")
  ≫= (λ resolved,
        timeout ← JS.get Samples.bare_realm resolved "timeout";
        baseUrl ← JS.get Samples.bare_realm resolved "baseUrl";
        Ok (timeout, baseUrl))
  = Ok (JS.VNum 10000, JS.VStr "https://jsonplaceholder-staging.typicode.com").
Proof. reflexivity. Qed.

(** ** Response validation *)

Section ValidatorProps.
Import JS Validator.
Variable R : realm.

Lemma is_string_true v s : is_string v s = true → v = VStr s.
Proof.
  destruct v; cbn [is_string]; try done.
  by intros ->%String.eqb_eq.
Qed.

(** The nested call is only reached with the string ['object'] as schema. *)
Lemma check_key_descend obj schemaObj path key actualValue schema fullPath :
  check_key R obj schemaObj path key = Ok (Descend actualValue schema fullPath) →
  schema = VStr "object" ∧ get R schemaObj key = Ok (VStr "object").
Proof.
  unfold check_key.
  destruct (has_property R key obj) as [[|]|]; cbn [mbind result_bind negb]; try done.
  destruct (get R schemaObj key) as [expectedType|]; cbn [mbind result_bind]; [|done].
  destruct (get R obj key) as [actual|]; cbn [mbind result_bind]; [|done].
  destruct (is_string expectedType "array" && negb (isArray R actual)); [done|].
  destruct (negb (is_string expectedType "array")
            && negb (is_string expectedType (typeof actual))).
  { by destruct (to_string R expectedType). }
  destruct (is_string expectedType "object") eqn:Hobject; cbn [andb]; [|done].
  destruct (negb (is_null actual)); [|done].
  intros [= _ <- _]. apply is_string_true in Hobject. by subst.
Qed.

(** The nested call itself never descends further: the keys of the string
    ['object'] are its six indices, and its "types" are single letters. *)
Lemma check_key_in_string obj path key actualValue schema fullPath :
  key ∈ own_keys (VStr "object") →
  check_key R obj (VStr "object") path key ≠ Ok (Descend actualValue schema fullPath).
Proof.
  intros Hkey Hcheck. apply check_key_descend in Hcheck as [_ Hget].
  change (own_keys (VStr "object")) with ["0"; "1"; "2"; "3"; "4"; "5"] in Hkey.
  repeat (apply elem_of_cons in Hkey as [->|Hkey]; [by vm_compute in Hget|]).
  by apply elem_of_nil in Hkey.
Qed.

(** The loop depends on the nested call only at the keys that descend. *)
Lemma for_each_key_ext recur1 recur2 obj schemaObj path keys :
  (∀ key actualValue schema fullPath errors,
      key ∈ keys →
      check_key R obj schemaObj path key = Ok (Descend actualValue schema fullPath) →
      recur1 actualValue schema fullPath errors = recur2 actualValue schema fullPath errors) →
  ∀ errors,
    for_each_key R recur1 obj schemaObj path keys errors
    = for_each_key R recur2 obj schemaObj path keys errors.
Proof.
  induction keys as [|key keys IH]; intros Hrecur errors; [done|].
  cbn [for_each_key].
  destruct (check_key R obj schemaObj path key) as [[message|actual schema fullPath|]|] eqn:Hcheck;
    try done.
  - apply IH. intros. eapply Hrecur; [by right|done].
  - rewrite (Hrecur key actual schema fullPath errors); [|by left|done].
    destruct (recur2 actual schema fullPath errors) as [[errors'|]|]; try done.
    apply IH. intros. eapply Hrecur; [by right|done].
  - apply IH. intros. eapply Hrecur; [by right|done].
Qed.

Lemma for_each_key_is_Some recur obj schemaObj path keys :
  (∀ key actualValue schema fullPath errors,
      key ∈ keys →
      check_key R obj schemaObj path key = Ok (Descend actualValue schema fullPath) →
      is_Some (recur actualValue schema fullPath errors)) →
  ∀ errors, is_Some (for_each_key R recur obj schemaObj path keys errors).
Proof.
  induction keys as [|key keys IH]; intros Hrecur errors; [by eexists|].
  cbn [for_each_key].
  destruct (check_key R obj schemaObj path key) as [[message|actual schema fullPath|]|] eqn:Hcheck.
  - apply IH. intros. eapply Hrecur; [by right|done].
  - destruct (Hrecur key actual schema fullPath errors) as [r Hr]; [by left|done|].
    rewrite Hr. destruct r as [errors'|]; [|by eexists].
    apply IH. intros. eapply Hrecur; [by right|done].
  - apply IH. intros. eapply Hrecur; [by right|done].
  - by eexists.
Qed.

Lemma validateObject_in_string fuel obj path errors :
  validateObject R (S fuel) obj (VStr "object") path errors
  = validateObject R 1 obj (VStr "object") path errors
  ∧ is_Some (validateObject R 1 obj (VStr "object") path errors).
Proof.
  cbn [validateObject]. split.
  - apply for_each_key_ext. intros key actual schema fullPath errs Hkey Hcheck.
    by apply check_key_in_string in Hcheck.
  - apply for_each_key_is_Some. intros key actual schema fullPath errs Hkey Hcheck.
    by apply check_key_in_string in Hcheck.
Qed.

(** Two levels are enough, whatever the object and the schema. *)
Lemma validateObject_fuel_enough fuel obj schemaObj path errors :
  (2 ≤ fuel)%nat →
  validateObject R fuel obj schemaObj path errors
  = validateObject R 2 obj schemaObj path errors
  ∧ is_Some (validateObject R 2 obj schemaObj path errors).
Proof.
  intros Hfuel. destruct fuel as [|[|fuel]]; [lia|lia|].
  cbn [validateObject]. split.
  - apply for_each_key_ext. intros key actual schema fullPath errs _ Hcheck.
    apply check_key_descend in Hcheck as [-> _].
    apply (validateObject_in_string fuel).
  - apply for_each_key_is_Some. intros key actual schema fullPath errs _ Hcheck.
    apply check_key_descend in Hcheck as [-> _].
    apply (validateObject_in_string 0).
Qed.

(** [validateResponseSchema] always settles, and more fuel changes
    nothing. *)
Lemma validateResponseSchema_fuel_enough fuel response schema :
  (2 ≤ fuel)%nat →
  validateResponseSchema_fuel R fuel response schema
  = validateResponseSchema R response schema
  ∧ is_Some (validateResponseSchema R response schema).
Proof.
  intros Hfuel. unfold validateResponseSchema, validateResponseSchema_fuel.
  destruct (get R response "data") as [data|]; [|by split; [|eexists]].
  destruct (validateObject_fuel_enough fuel data schema EmptyString [] Hfuel) as [-> [r ->]].
  split; [done|]. destruct r; by eexists.
Qed.

(** When a result is returned, [isValid] says exactly that [errors] is
    empty. *)
Lemma validateResponseSchema_isValid response schema r :
  validateResponseSchema R response schema = Some (Ok r) →
  isValid r = true ↔ errors r = [].
Proof.
  unfold validateResponseSchema, validateResponseSchema_fuel.
  destruct (get R response "data") as [data|]; [|done].
  destruct (validateObject R 2 data schema EmptyString []) as [[errs|]|]; try done.
  intros [= <-]. cbn [isValid errors].
  rewrite bool_decide_eq_true. by destruct errs.
Qed.

(** A body that is not an object makes the first [key in obj] throw. *)
Lemma validateResponseSchema_primitive_data response data schema key keys :
  get R response "data" = Ok data →
  has_property R key data = Throw TypeError →
  own_keys schema = key :: keys →
  validateResponseSchema R response schema = Some (Throw TypeError).
Proof.
  intros Hdata Hin Hkeys.
  unfold validateResponseSchema, validateResponseSchema_fuel.
  rewrite Hdata. cbn [validateObject]. rewrite Hkeys. cbn [for_each_key].
  unfold check_key. by rewrite Hin.
Qed.

(** C5 (the code departs from the claim).  With a body of [null], of
    [undefined], of a number or of the empty string, and a schema with at
    least one key, the [key in obj] test throws a [TypeError] out of
    [validateResponseSchema]: no result object is returned. *)
Theorem validateResponseSchema_throws :
  let schema := VObj [("id", VStr "number"); ("title", VStr "string")] in
  validateResponseSchema R (VObj [("status", VNum 204); ("data", VNull)]) schema
  = Some (Throw TypeError)
  ∧ validateResponseSchema R (VObj [("status", VNum 204)]) schema
    = Some (Throw TypeError)
  ∧ validateResponseSchema R (VObj [("status", VNum 200); ("data", VNum 7)]) schema
    = Some (Throw TypeError)
  ∧ validateResponseSchema R (VObj [("status", VNum 204); ("data", VStr EmptyString)]) schema
    = Some (Throw TypeError).
Proof. repeat split. Qed.

(** A key that the object lacks is reported and the loop goes on with the
    next key. *)
Lemma for_each_key_missing recur obj schemaObj path key rest errors :
  has_property R key obj = Ok false →
  for_each_key R recur obj schemaObj path (key :: rest) errors
  = for_each_key R recur obj schemaObj path rest
      (errors ++ ["Missing property: " +:+ full_path path key]).
Proof.
  intros Hin. cbn [for_each_key]. unfold check_key. by rewrite Hin.
Qed.

(** A schema entry that is itself a schema object is never descended into:
    it is compared with the [typeof] string and reported as a mismatch. *)
Lemma check_key_nested_schema obj schemaObj path key nested actualValue :
  has_property R key obj = Ok true →
  get R schemaObj key = Ok (VObj nested) →
  get R obj key = Ok actualValue →
  assoc "toString" nested = None →
  check_key R obj schemaObj path key
  = Ok (Report ("Property " +:+ full_path path key
                +:+ " should be [object Object], got " +:+ typeof actualValue)).
Proof.
  intros Hin Hschema Hobj HtoString. unfold check_key.
  rewrite Hin, Hschema, Hobj. cbn [mbind result_bind negb is_string andb to_string].
  by rewrite HtoString.
Qed.

(** C6 (the code departs from the claim).  For the schema
    [{user: {name: 'string'}}] the nested schema is not walked: whether the
    body is [{user: {}}] (nested property missing) or
    [{user: {name: 'x'}}] (nested property present and of the right type),
    the only error is the type mismatch on [user] itself, and no
    ["Missing property: user.name"] is recorded. *)
Theorem validateResponseSchema_nested_schema :
  let schema := VObj [("user", VObj [("name", VStr "string")])] in
  let mismatch :=
    Some (Ok {| isValid := false;
                errors := ["Property user should be [object Object], got object"] |}) in
  validateResponseSchema R (VObj [("data", VObj [("user", VObj [])])]) schema = mismatch
  ∧ validateResponseSchema R
      (VObj [("data", VObj [("user", VObj [("name", VStr "x")])])]) schema = mismatch.
Proof. split; reflexivity. Qed.

End ValidatorProps.

(** Scenario C: a missing flat property is collected. *)
Example scenario_C :
  Validator.validateResponseSchema Samples.bare_realm
    (JS.VObj [("data", JS.VObj [("id", JS.VNum 1)])])
    (JS.VObj [("id", JS.VStr "number"); ("title", JS.VStr "string")])
  = Some (Ok {| Validator.isValid := false;
                Validator.errors := ["Missing property: title"] |}).
Proof. reflexivity. Qed.

(** With the type name ['object'] in the schema the nested call walks the
    letters of that string. *)
Example schema_type_object :
  Validator.validateResponseSchema Samples.bare_realm
    (JS.VObj [("data", JS.VObj [("user", JS.VObj [("name", JS.VStr "x")])])])
    (JS.VObj [("user", JS.VStr "object")])
  = Some (Ok {| Validator.isValid := false;
                Validator.errors :=
                  ["Missing property: user.0"; "Missing property: user.1";
                   "Missing property: user.2"; "Missing property: user.3";
                   "Missing property: user.4"; "Missing property: user.5"] |}).
Proof. reflexivity. Qed.

(** ** The assertion engine *)

Section FluentProps.
Import Fluent.
Variable E : externals.

Create HintDb fluent discriminated.

Lemma extends_ret {A} (a : A) : extends (mret a : M A).
Proof. by intros h r h' [= _ <-]. Qed.

Lemma extends_throw {A} (e : exn) : extends (throw e : M A).
Proof. by intros h r h' [= _ <-]. Qed.

Lemma extends_lift {A} (f : heap → result A) : extends (lift f).
Proof. by intros h r h' [= _ <-]. Qed.

Lemma extends_bind {A B} (m : M A) (f : A → M B) :
  extends m → (∀ a, extends (f a)) → extends (m ≫= f).
Proof.
  intros Hm Hf h r h'. unfold mbind, M_bind.
  destruct (m h) as [[a|e] h1] eqn:Hrun.
  - intros Hcont. etrans; [by eapply Hm|by eapply Hf].
  - intros [= _ <-]. by eapply Hm.
Qed.

Lemma extends_if {A} (b : bool) (m1 m2 : M A) :
  extends m1 → extends m2 → extends (if b then m1 else m2).
Proof. by destruct b. Qed.

Lemma extends_forEach {A} (l : list A) (f : A → M ()) :
  (∀ x, extends (f x)) → extends (forEach l f).
Proof.
  intros Hf. induction l as [|x l IH]; cbn [forEach].
  - apply extends_ret.
  - apply extends_bind; [apply Hf|by intros _].
Qed.

Lemma extends_alloc (o : jsobj) : extends (alloc o).
Proof.
  intros h r h' [= _ <-]. apply insert_subseteq, not_elem_of_dom, is_fresh.
Qed.

Lemma extends_assert (b : bool) : extends (assert b).
Proof. destruct b; [apply extends_ret|apply extends_throw]. Qed.

(** A computation that hands the heap back as it got it. *)
Lemma extends_read {A} (m : M A) : (∀ h, (m h).2 = h) → extends m.
Proof. intros Hm h r h' Hrun. specialize (Hm h). rewrite Hrun in Hm. by subst. Qed.

Lemma assert_heap (b : bool) h : (assert b h).2 = h.
Proof. by destruct b. Qed.

Lemma extends_get v k : extends (get E v k).
Proof. apply extends_lift. Qed.

Lemma extends_typeof v : extends (typeof v).
Proof. apply extends_lift. Qed.

Lemma extends_Object_keys v : extends (Object_keys v).
Proof. apply extends_lift. Qed.

Lemma extends_template vs : extends (template E vs).
Proof.
  apply extends_forEach. intros v.
  apply extends_bind; [apply extends_lift|intros _; apply extends_ret].
Qed.

Lemma extends_expect_equal v w : extends (expect_equal v w).
Proof. apply extends_assert. Qed.

Lemma extends_expect_within v lo hi : extends (expect_within v lo hi).
Proof. apply extends_assert. Qed.

Lemma extends_expect_below v w : extends (expect_below v w).
Proof. apply extends_assert. Qed.

Lemma extends_expect_not_undefined v : extends (expect_not_undefined v).
Proof. apply extends_assert. Qed.

Lemma extends_expect_not_null v : extends (expect_not_null v).
Proof. apply extends_assert. Qed.

Lemma extends_expect_oneOf v list : extends (expect_oneOf v list).
Proof.
  apply extends_read. intros h. unfold expect_oneOf.
  destruct list as [| | | | |l]; try done.
  destruct (h !! l) as [[elems|props|name]|]; try done. apply assert_heap.
Qed.

Lemma extends_expect_property v name : extends (expect_property E v name).
Proof. apply extends_read. intros h. apply assert_heap. Qed.

Lemma extends_expect_an v type : extends (expect_an v type).
Proof. apply extends_read. intros h. apply assert_heap. Qed.

Lemma extends_expect_lengthOf v n : extends (expect_lengthOf E v n).
Proof. apply extends_read. intros h. apply assert_heap. Qed.

Lemma extends_expect_deep_include v w : extends (expect_deep_include E v w).
Proof. apply extends_read. intros h. apply assert_heap. Qed.

Lemma extends_expect_deep_equal v w : extends (expect_deep_equal E v w).
Proof. apply extends_read. intros h. apply assert_heap. Qed.

Lemma extends_actual_field this field : extends (actual_field E this field).
Proof.
  apply extends_bind; [apply extends_get|intros actual; apply extends_get].
Qed.

Hint Resolve extends_ret extends_throw extends_lift extends_bind extends_if
  extends_forEach extends_alloc extends_assert extends_get extends_typeof
  extends_Object_keys extends_template extends_expect_equal extends_expect_within
  extends_expect_below extends_expect_not_undefined extends_expect_not_null
  extends_expect_oneOf extends_expect_property extends_expect_an
  extends_expect_lengthOf extends_expect_deep_include extends_expect_deep_equal
  extends_actual_field : fluent.

Lemma yields_ret {A} (x : A) : yields x (mret x : M A).
Proof. by intros h r h' [= <- _]. Qed.

Lemma yields_bind {A B} (x : B) (m : M A) (f : A → M B) :
  (∀ a, yields x (f a)) → yields x (m ≫= f).
Proof.
  intros Hf h r h'. unfold mbind, M_bind.
  destruct (m h) as [[a|e] h1]; [apply Hf|done].
Qed.

Hint Resolve yields_ret yields_bind : fluent.

(** Every check hands back the instance it was called on, and leaves every
    object of the heap as it was. *)
Lemma invoke_extends c this : extends (invoke E c this).
Proof.
  destruct c; cbn [invoke];
    unfold toHaveStatus, toHaveStatusInRange, toHaveBody, toHaveEmptyBody,
      toHaveProperty, toHaveProperties, toMatchSchema, toBeArray, toHaveLength,
      toBeObject, toHaveHeader, toContain, toEqual, toRespondWithin, and;
    eauto 20 with fluent.
Qed.

Lemma invoke_yields c this : yields (JRef this) (invoke E c this).
Proof.
  destruct c; cbn [invoke];
    unfold toHaveStatus, toHaveStatusInRange, toHaveBody, toHaveEmptyBody,
      toHaveProperty, toHaveProperties, toMatchSchema, toBeArray, toHaveLength,
      toBeObject, toHaveHeader, toContain, toEqual, toRespondWithin, and;
    eauto 20 with fluent.
Qed.

(** [toHaveEmptyBody] passes exactly on [null], [undefined] and the empty
    string: the array literal among the candidates is a new object, and no
    value that exists already is identical to it. *)
Lemma toHaveEmptyBody_verdict this h data :
  actual_field E this "data" h = (Ok data, h) →
  (∀ l, data = JRef l → is_Some (h !! l)) →
  (toHaveEmptyBody E this h).1
  = if bool_decide (data ∈ [JNull; JUndefined; JStr EmptyString])
    then Ok (JRef this) else Throw AssertionError.
Proof.
  intros Hdata Hlive. unfold toHaveEmptyBody.
  unfold mbind at 1, M_bind at 1. rewrite Hdata.
  unfold mbind, M_bind, alloc, expect_oneOf.
  set (l1 := fresh (dom h)).
  set (h1 := <[l1:=OArr []]> h).
  rewrite lookup_insert_eq. cbn [existsb].
  assert (Hfresh : strict_equals data (JRef l1) = false).
  { apply bool_decide_eq_false_2. intros Heq.
    destruct (Hlive l1 Heq) as [o Ho].
    apply (is_fresh (dom h)). fold l1. apply elem_of_dom. by eexists. }
  rewrite Hfresh, !orb_false_r. unfold strict_equals.
  destruct (decide (data ∈ [JNull; JUndefined; JStr EmptyString])) as [Hin|Hout].
  - rewrite (bool_decide_eq_true_2 _ Hin).
    repeat (apply elem_of_cons in Hin as [->|Hin]; [reflexivity|]).
    by apply elem_of_nil in Hin.
  - rewrite (bool_decide_eq_false_2 _ Hout).
    rewrite !not_elem_of_cons in Hout. destruct Hout as (Hnull & Hundef & Hempty & _).
    by rewrite !bool_decide_eq_false_2.
Qed.

(** C7 (the code departs from the claim).  When the body of the snapshot is an
    empty array, [toHaveEmptyBody] raises an assertion failure. *)
Theorem toHaveEmptyBody_empty_array this snapshot body props h :
  h !! this = Some (OObj [("actual", JRef snapshot)]) →
  h !! snapshot = Some (OObj props) →
  assoc "data" props = Some (JRef body) →
  h !! body = Some (OArr []) →
  (toHaveEmptyBody E this h).1 = Throw AssertionError.
Proof.
  intros Hthis Hsnapshot Hdata Hbody.
  rewrite (toHaveEmptyBody_verdict this h (JRef body)).
  - rewrite bool_decide_eq_false_2; [done|].
    rewrite !not_elem_of_cons. repeat split; try done. apply not_elem_of_nil.
  - unfold actual_field, get, lift. unfold mbind at 1, M_bind at 1.
    rewrite Hthis. cbn [mbind option_bind get_own assoc String.eqb Ascii.eqb Bool.eqb].
    rewrite Hsnapshot. cbn [mbind option_bind get_own]. by rewrite Hdata.
  - intros l [= <-]. by eexists.
Qed.

Lemma chain_extends checks receiver : extends (chain E checks receiver).
Proof.
  revert receiver. induction checks as [|c checks IH]; intros receiver; cbn [chain].
  - apply extends_ret.
  - destruct receiver; try apply extends_throw.
    apply extends_bind; [apply invoke_extends|done].
Qed.

(** C8. However a call chain ends, every object that existed before it, the
    snapshot included, is unchanged after it.  When the chain succeeds, it
    returns the instance it started from, and every check of the chain ran
    on that one instance.  [and()] returns the instance without touching
    anything. *)
Theorem chain_same_instance checks this h r h' :
  chain E checks (JRef this) h = (r, h') →
  h ⊆ h'
  ∧ (∀ v, r = Ok v → v = JRef this ∧ invoke_all E checks this h = (Ok (), h'))
  ∧ ∀ h0, and this h0 = (Ok (JRef this), h0).
Proof.
  intros Hchain. split; [by eapply chain_extends|]. split; [|done].
  intros v ->. revert h Hchain. induction checks as [|c checks IH]; intros h Hchain.
  - by injection Hchain as <- <-.
  - cbn [chain] in Hchain. unfold invoke_all. cbn [forEach].
    unfold mbind, M_bind in Hchain |- *.
    destruct (invoke E c this h) as [[r1|e] h1] eqn:Hinvoke; [|done].
    pose proof (invoke_yields c this h r1 h1 Hinvoke) as ->.
    destruct (IH h1 Hchain) as (-> & Hall). by split.
Qed.

End FluentProps.

Lemma toHaveEmptyBody_empty_array_witness :
  (Fluent.toHaveEmptyBody Samples.shallow_externals 3%positive
     Samples.heap_empty_array_body).1 = Throw AssertionError.
Proof.
  apply (toHaveEmptyBody_empty_array Samples.shallow_externals
           3%positive 2%positive 1%positive
           [("status", Fluent.JNum 204); ("data", Fluent.JRef 1%positive)]);
    reflexivity.
Defined.

(** The chain [expectResponse(r).toHaveStatus(200).and().toHaveBody()]. *)
Lemma chain_same_instance_witness :
  Samples.heap_scenario_B ⊆ Samples.heap_scenario_B
  ∧ (∀ v, Ok (Fluent.JRef 3%positive) = Ok v →
          v = Fluent.JRef 3%positive
          ∧ Fluent.invoke_all Samples.shallow_externals
              [Fluent.ToHaveStatus (Fluent.JNum 200); Fluent.And; Fluent.ToHaveBody]
              3%positive Samples.heap_scenario_B = (Ok (), Samples.heap_scenario_B))
  ∧ ∀ h0, Fluent.and 3%positive h0 = (Ok (Fluent.JRef 3%positive), h0).
Proof.
  apply (chain_same_instance Samples.shallow_externals
           [Fluent.ToHaveStatus (Fluent.JNum 200); Fluent.And; Fluent.ToHaveBody]).
  reflexivity.
Defined.

(** Scenario B. *)
Example scenario_B_passes :
  Fluent.chain Samples.shallow_externals
    [Fluent.ToHaveStatus (Fluent.JNum 200); Fluent.And; Fluent.ToHaveProperty "id"]
    (Fluent.JRef 3%positive) Samples.heap_scenario_B
  = (Ok (Fluent.JRef 3%positive), Samples.heap_scenario_B).
Proof. reflexivity. Qed.

Example scenario_B_raises :
  Fluent.chain Samples.shallow_externals
    [Fluent.ToHaveProperty "missing"]
    (Fluent.JRef 3%positive) Samples.heap_scenario_B
  = (Throw AssertionError, Samples.heap_scenario_B).
Proof. reflexivity. Qed.

Example empty_string_body_passes :
  (Fluent.toHaveEmptyBody Samples.shallow_externals 3%positive
     (<[2%positive := Fluent.OObj [("status", Fluent.JNum 204); ("data", Fluent.JStr EmptyString)]]>
        Samples.heap_empty_array_body)).1
  = Ok (Fluent.JRef 3%positive).
Proof. reflexivity. Qed.

(** ** The HTTP client *)

Section HttpProps.
Import Http.
Context {response failure : Type}.
Variable transport :
  axios_defaults → verb → string → JS.value → JS.value → response + failure.
Variable response_status : response → string.
Variable failure_status : failure → option string.

(** Issuing calls writes to the log and to nothing else. *)
Lemma call_frame v url data cfg c :
  let c' := (call transport response_status failure_status v url data cfg c).2 in
  defaults c' = defaults c ∧ config c' = config c.
Proof. unfold call. cbn. by destruct (transport _ _ _ _ _). Qed.

Lemma calls_frame l c :
  let c' := calls transport response_status failure_status l c in
  defaults c' = defaults c ∧ config c' = config c.
Proof.
  revert c. induction l as [|[[[v url] data] cfg] l IH]; intros c; [done|].
  cbn [calls]. destruct (IH (call transport response_status failure_status v url data cfg c).2)
    as [-> ->].
  apply call_frame.
Qed.

(** C9. [setAuthorization(token, scheme)] makes the [Authorization] default
    header ["<scheme> <token>"] (scheme ["Bearer"] when omitted) and leaves
    every other default header, the base URL and the timeout as they were;
    [clearAuthorization()] removes that entry and changes nothing else; and
    the entry set stays in place over any calls issued in between. *)
Theorem setAuthorization_frame (token : string) (scheme : option string)
    (c : HttpClient) (k : string) (l : list (verb * string * JS.value * JS.value)) :
  k ≠ "Authorization" →
  let set := setAuthorization token scheme c in
  let later := calls transport response_status failure_status l set in
  let cleared := clearAuthorization later in
  headers_common (defaults set) !! "Authorization"
  = Some (default "Bearer" scheme +:+ " " +:+ token)
  ∧ headers_common (defaults set) !! k = headers_common (defaults c) !! k
  ∧ headers_scoped (defaults set) = headers_scoped (defaults c)
  ∧ baseURL (defaults set) = baseURL (defaults c)
  ∧ timeout (defaults set) = timeout (defaults c)
  ∧ config set = config c
  ∧ headers_common (defaults later) !! "Authorization"
    = Some (default "Bearer" scheme +:+ " " +:+ token)
  ∧ headers_common (defaults cleared) !! "Authorization" = None
  ∧ headers_common (defaults cleared) !! k = headers_common (defaults c) !! k
  ∧ headers_scoped (defaults cleared) = headers_scoped (defaults c)
  ∧ baseURL (defaults cleared) = baseURL (defaults c)
  ∧ timeout (defaults cleared) = timeout (defaults c)
  ∧ config cleared = config c.
Proof.
  intros Hk set later cleared.
  destruct (calls_frame l set) as [Hdefaults Hconfig].
  fold later in Hdefaults, Hconfig.
  assert (Hset : headers_common (defaults set)
                 = <["Authorization" := default "Bearer" scheme +:+ " " +:+ token]>
                     (headers_common (defaults c))) by reflexivity.
  assert (Hcleared : headers_common (defaults cleared)
                     = base.delete "Authorization" (headers_common (defaults later)))
    by reflexivity.
  repeat split; try reflexivity.
  - by rewrite Hset, lookup_insert_eq.
  - by rewrite Hset, lookup_insert_ne.
  - by rewrite Hdefaults, Hset, lookup_insert_eq.
  - by rewrite Hcleared, lookup_delete_eq.
  - by rewrite Hcleared, lookup_delete_ne, Hdefaults, Hset, lookup_insert_ne.
  - change (headers_scoped (defaults cleared)) with (headers_scoped (defaults later)).
    by rewrite Hdefaults.
  - change (baseURL (defaults cleared)) with (baseURL (defaults later)).
    by rewrite Hdefaults.
  - change (timeout (defaults cleared)) with (timeout (defaults later)).
    by rewrite Hdefaults.
  - change (config cleared) with (config later). by rewrite Hconfig.
Qed.

End HttpProps.

(** The test of [posts.test.js]: set a token, delete a post, clear. *)
Lemma setAuthorization_frame_witness :
  Http.headers_common (Http.defaults (Http.setAuthorization "fake-token" None Samples.client))
    !! "Authorization" = Some "Bearer fake-token"
  ∧ Http.headers_common (Http.defaults (Http.setAuthorization "fake-token" None Samples.client))
      !! "Accept" = Http.headers_common (Http.defaults Samples.client) !! "Accept"
  ∧ Http.headers_common
      (Http.defaults
         (Http.calls Samples.transport_200 (λ status, pretty status) (λ _, None)
            Samples.delete_post_4
            (Http.setAuthorization "fake-token" None Samples.client)))
      !! "Authorization" = Some "Bearer fake-token"
  ∧ Http.headers_common
      (Http.defaults
         (Http.clearAuthorization
            (Http.calls Samples.transport_200 (λ status, pretty status) (λ _, None)
               Samples.delete_post_4
               (Http.setAuthorization "fake-token" None Samples.client))))
      !! "Authorization" = None.
Proof.
  pose proof (setAuthorization_frame Samples.transport_200 (λ status, pretty status)
                (λ _, None) "fake-token" None Samples.client "Accept"
                Samples.delete_post_4 ltac:(discriminate)) as Hframe.
  cbv zeta in Hframe.
  destruct Hframe as (Hset & Hother & _ & _ & _ & _ & Hlater & Hcleared & _).
  exact (conj Hset (conj Hother (conj Hlater Hcleared))).
Defined.

Example setAuthorization_log :
  Http.logged (Http.clearAuthorization (Http.setAuthorization "fake-token" None Samples.client))
  = [ {| Http.entry_level := Http.DebugLevel; Http.entry_message := "Set authorization header" |};
      {| Http.entry_level := Http.DebugLevel; Http.entry_message := "Cleared authorization header" |} ].
Proof. reflexivity. Qed.
(** * Further properties *)

(** ** Text *)

Section TextProps.
Import Text.
Import Stdlib.Strings.Ascii.

Lemma nullable_matches r : nullable r = true ↔ matches r [].
Proof.
  split.
  - induction r; cbn [nullable]; try done.
    + constructor.
    + intros [? ?]%andb_true_iff. apply (matches_Seq _ _ [] []); auto.
    + intros [?|?]%orb_true_iff; [apply matches_Alt_l|apply matches_Alt_r]; auto.
    + constructor.
  - intros Hm. remember [] as w eqn:Hw.
    induction Hm; cbn [nullable]; try done.
    + apply app_eq_nil in Hw as [-> ->]. by rewrite IHHm1, IHHm2.
    + by rewrite IHHm.
    + rewrite IHHm by done. apply orb_true_r.
Qed.

Lemma derive_matches c r w : matches (derive c r) w ↔ matches r (c :: w).
Proof.
  split.
  - revert w. induction r as [| |p|r1 IH1 r2 IH2|r1 IH1 r2 IH2|r1 IH1]; intros w; cbn [derive].
    + inversion 1.
    + inversion 1.
    + destruct (p c) eqn:Hp; inversion 1; subst. by constructor.
    + destruct (nullable r1) eqn:Hnull.
      * inversion 1 as [| | | ? ? ? Hl | ? ? ? Hr | |]; subst.
        -- inversion Hl; subst. apply (matches_Seq _ _ (c :: _)); auto.
        -- apply (matches_Seq _ _ []); [by apply nullable_matches|auto].
      * inversion 1; subst. apply (matches_Seq _ _ (c :: _)); auto.
    + inversion 1; subst; [apply matches_Alt_l|apply matches_Alt_r]; auto.
    + inversion 1; subst. apply (matches_Star_cons _ (c :: _)); auto.
  - intros Hm. remember (c :: w) as cw eqn:Hcw. revert w Hcw.
    induction Hm as [|p c' Hp|r1 r2 w1 w2 Hm1 IH1 Hm2 IH2|r1 r2 w' Hm IH|r1 r2 w' Hm IH
                    |r1|r1 w1 w2 Hm1 IH1 Hm2 IH2]; intros w Hcw; cbn [derive].
    + done.
    + injection Hcw as -> <-. rewrite Hp. constructor.
    + destruct w1 as [|c1 w1].
      * cbn in Hcw. subst w2.
        apply nullable_matches in Hm1 as ->. apply matches_Alt_r. by apply IH2.
      * injection Hcw as -> <-.
        assert (matches (Seq (derive c r1) r2) (w1 ++ w2))
          by (constructor; [by apply IH1|done]).
        destruct (nullable r1); [by apply matches_Alt_l|done].
    + apply matches_Alt_l. by apply IH.
    + apply matches_Alt_r. by apply IH.
    + done.
    + destruct w1 as [|c1 w1].
      * cbn in Hcw. by apply IH2.
      * injection Hcw as -> <-. constructor; [by apply IH1|done].
Qed.

(** The matcher decides the language. *)
Lemma accepts_matches r w : accepts r w = true ↔ matches r w.
Proof.
  revert r. induction w as [|c w IH]; intros r; cbn [accepts].
  - apply nullable_matches.
  - rewrite IH. apply derive_matches.
Qed.

Lemma matches_Star_Class p w :
  matches (Star (Class p)) w ↔ Forall (λ c, p c = true) w.
Proof.
  split.
  - intros Hm. remember (Star (Class p)) as r eqn:Hr.
    induction Hm; try done.
    injection Hr as ->. inversion Hm1; subst. constructor; auto.
  - induction 1 as [|c w Hc _ IH]; [constructor|].
    apply (matches_Star_cons _ [c]); [by constructor|done].
Qed.

Lemma matches_Plus_Class p w :
  matches (Plus (Class p)) w ↔ w ≠ [] ∧ Forall (λ c, p c = true) w.
Proof.
  unfold Plus. split.
  - inversion 1 as [| |? ? w1 w2 H1 H2| | | |]; subst.
    inversion H1; subst. apply matches_Star_Class in H2.
    split; [done|]. by constructor.
  - intros [Hne Hall]. destruct Hall as [|c w Hc Hall]; [done|].
    apply (matches_Seq _ _ [c]); [by constructor|by apply matches_Star_Class].
Qed.

Lemma matches_Class_eqb a w : matches (Class (Ascii.eqb a)) w ↔ w = [a].
Proof.
  split.
  - inversion 1 as [|? c Hc| | | | |]; subst. by apply Ascii.eqb_eq in Hc as ->.
  - intros ->. constructor. apply Ascii.eqb_refl.
Qed.

Lemma list_ascii_of_string_app s1 s2 :
  String.list_ascii_of_string (s1 +:+ s2)
  = String.list_ascii_of_string s1 ++ String.list_ascii_of_string s2.
Proof. induction s1 as [|c s1 IH]; [done|]. simpl. by rewrite IH. Qed.

Lemma string_of_list_ascii_length l :
  String.length (String.string_of_list_ascii l) = length l.
Proof. induction l as [|c l IH]; [done|]. simpl. by rewrite IH. Qed.

Lemma trimStart_nil l : trimStart l = [] ↔ Forall (λ c, is_whitespace c = true) l.
Proof.
  induction l as [|c l IH]; cbn [trimStart]; [by split|].
  destruct (is_whitespace c) eqn:Hc.
  - rewrite IH. split; [by constructor|by inversion 1].
  - split; [done|]. inversion 1; congruence.
Qed.

Lemma trimStart_head l :
  trimStart l = [] ∨ ∃ c rest, trimStart l = c :: rest ∧ is_whitespace c = false.
Proof.
  induction l as [|c l IH]; cbn [trimStart]; [by left|].
  destruct (is_whitespace c) eqn:Hc; [done|]. right. by exists c, l.
Qed.

Lemma trimEnd_nil l : trimEnd l = [] ↔ Forall (λ c, is_whitespace c = true) l.
Proof.
  unfold trimEnd. split.
  - intros Hnil. apply (f_equal (@rev _)) in Hnil. rewrite rev_involutive in Hnil.
    apply trimStart_nil, List.Forall_rev in Hnil. by rewrite rev_involutive in Hnil.
  - intros Hall%List.Forall_rev%trimStart_nil. by rewrite Hall.
Qed.

(** A string trims to nothing exactly when it consists of white space. *)
Lemma trim_empty s :
  String.length (trim s) = 0%nat
  ↔ Forall (λ c, is_whitespace c = true) (String.list_ascii_of_string s).
Proof.
  unfold trim. rewrite string_of_list_ascii_length, length_zero_iff_nil, trimEnd_nil.
  split.
  - intros Hall. apply trimStart_nil.
    destruct (trimStart_head (String.list_ascii_of_string s)) as [Hnil|(c & rest & Heq & Hc)];
      [done|].
    rewrite Heq in Hall. inversion Hall; congruence.
  - intros Hall. apply trimStart_nil in Hall. rewrite Hall. constructor.
Qed.

Lemma string_of_list_ascii_app l1 l2 :
  String.string_of_list_ascii (l1 ++ l2)
  = String.string_of_list_ascii l1 +:+ String.string_of_list_ascii l2.
Proof. induction l1 as [|c l1 IH]; [done|]. simpl. by rewrite IH. Qed.

Lemma address_part_matches part :
  address_part part
  ↔ matches (Plus (Class not_space_or_at)) (String.list_ascii_of_string part).
Proof.
  rewrite matches_Plus_Class. unfold address_part.
  assert (part ≠ EmptyString ↔ String.list_ascii_of_string part ≠ []) as ->; [|done].
  destruct part; [by split|]. by split.
Qed.

Lemma isValidEmail_parts (email : string) :
  isValidEmail email = true
  ↔ ∃ local domain tld,
      email = local +:+ "@" +:+ domain +:+ "." +:+ tld
      ∧ address_part local ∧ address_part domain ∧ address_part tld.
Proof.
  unfold isValidEmail, test_anchored. rewrite accepts_matches. unfold emailRegex. split.
  - inversion 1 as [| |? ? w1 r1 Hlocal Hrest| | | |]; subst.
    inversion Hrest as [| |? ? w2 r2 Hat Hrest2| | | |]; subst.
    inversion Hrest2 as [| |? ? w3 r3 Hdomain Hrest3| | | |]; subst.
    inversion Hrest3 as [| |? ? w4 w5 Hdot Htld| | | |]; subst.
    apply matches_Class_eqb in Hat as ->. apply matches_Class_eqb in Hdot as ->.
    exists (String.string_of_list_ascii w1), (String.string_of_list_ascii w3),
      (String.string_of_list_ascii w5).
    rewrite !address_part_matches, !String.list_ascii_of_string_of_list_ascii.
    split; [|done].
    rewrite <- (String.string_of_list_ascii_of_string email).
    match goal with H : _ = String.list_ascii_of_string email |- _ => rewrite <- H end.
    by rewrite !string_of_list_ascii_app.
  - intros (local & domain & tld & -> & Hlocal & Hdomain & Htld).
    apply address_part_matches in Hlocal, Hdomain, Htld.
    rewrite !list_ascii_of_string_app.
    repeat (constructor; try done); by apply matches_Class_eqb.
Qed.

(** X1. [isValidEmail] accepts exactly the strings of the form
    [local@domain.tld] in which each of the three parts is non-empty and
    contains neither white space nor [@].  In particular an accepted string
    has exactly one [@], with a dot somewhere after it that is neither the
    next character nor the last one. *)
Theorem isValidEmail_shape (email : string) :
  isValidEmail email = true
  ↔ ∃ local domain tld,
      email = local +:+ "@" +:+ domain +:+ "." +:+ tld
      ∧ address_part local ∧ address_part domain ∧ address_part tld.
Proof. apply isValidEmail_parts. Qed.

End TextProps.

Example isValidEmail_accepts : Text.isValidEmail "john@example.com" = true.
Proof. reflexivity. Qed.

Example isValidEmail_rejects :
  Text.isValidEmail "john@example" = false
  ∧ Text.isValidEmail "john@.com" = false
  ∧ Text.isValidEmail "john doe@example.com" = false
  ∧ Text.isValidEmail "a@b@example.com" = false.
Proof. repeat split. Qed.

(** ** Data transfer objects *)

Section DTOProps.
Import JS DTO.
Variable R : realm.

Lemma get_object props k :
  get R (VObj props) k
  = Ok match assoc k props with
       | Some x => x
       | None => Object_prototype_get VObjectPrototype k
       end.
Proof. cbn [get]. by destruct (assoc k props). Qed.

Lemma truthy_defined v : truthy v = true → v ≠ VUndefined.
Proof. by intros Htruthy ->. Qed.

(** What [||] followed by a parameter default keeps. *)
Lemma default_or_else fallback v :
  fallback ≠ VUndefined →
  default_to fallback (or_else v fallback) = v ↔ kept_by_or fallback v.
Proof.
  intros Hfallback. unfold or_else, kept_by_or. destruct (truthy v) eqn:Htruthy.
  - split; [by left|intros _]. by destruct v.
  - assert (default_to fallback fallback = fallback) as -> by by destruct fallback.
    split; [by right|]. by intros [?| ->].
Qed.

Lemma default_or_else_kept fallback v :
  fallback ≠ VUndefined →
  kept_by_or fallback (default_to fallback (or_else v fallback))
  ∧ default_to fallback (or_else v fallback) ≠ VUndefined.
Proof.
  intros Hfallback. unfold or_else, kept_by_or. destruct (truthy v) eqn:Htruthy.
  - assert (default_to fallback v = v) as -> by by destruct v.
    split; [by left|by apply truthy_defined].
  - assert (default_to fallback fallback = fallback) as -> by by destruct fallback.
    split; [by right|done].
Qed.


Lemma nonblank_string_spec v : not_nonempty_string v = false ↔ nonblank_string v.
Proof.
  unfold not_nonempty_string, nonblank_string.
  destruct v as [| | | |s| | | |]; try by (split; [|intros (? & ? & ?)]).
  rewrite Nat.eqb_neq, trim_empty. split.
  - intros Hsome%not_Forall_Exists; [|solve_decision]. exists s. split; [done|].
    eapply List.Exists_impl; [|done]. intros c. cbn. by destruct (Text.is_whitespace c).
  - intros (s' & [= <-] & Hsome). apply Exists_not_Forall.
    eapply List.Exists_impl; [|done]. intros c. cbn. by intros ->.
Qed.





Lemma default_to_defined fallback v :
  fallback ≠ VUndefined → default_to fallback v ≠ VUndefined.
Proof. by destruct v. Qed.

Lemma default_to_id fallback v : v ≠ VUndefined → default_to fallback v = v.
Proof. by destruct v. Qed.

(** [overrides.k !== undefined ? overrides.k : current] on an object, for a
    key that [Object.prototype] does not define. *)
Lemma override_object o k current :
  Object_prototype_get VObjectPrototype k = VUndefined →
  override R (VObj o) k current
  = Ok (default_to current (default VUndefined (assoc k o))).
Proof.
  intros Hproto. unfold override. rewrite get_object. cbn [mbind result_bind].
  destruct (assoc k o) as [v|]; [done|]. by rewrite Hproto.
Qed.

Lemma assoc_defined o k v :
  Forall (λ kv : string * value, kv.2 ≠ VUndefined) o → assoc k o = Some v → v ≠ VUndefined.
Proof.
  induction 1 as [|[k0 v0] o Hv _ IH]; cbn [assoc]; [done|].
  destruct (String.eqb k0 k); [by intros [= <-]|done].
Qed.

(** One field under two successive copies, and under one copy with the
    merged overrides. *)
Lemma copy_field_compose fallback current o1 o2 k :
  fallback ≠ VUndefined →
  Forall (λ kv : string * value, kv.2 ≠ VUndefined) o2 →
  default_to fallback
    (default_to (default_to fallback (default_to current (default VUndefined (assoc k o1))))
       (default VUndefined (assoc k o2)))
  = default_to fallback
      (default_to current (default VUndefined (assoc k (spread o1 (VObj o2))))).
Proof.
  intros Hfallback Hdefined. rewrite assoc_spread.
  destruct (assoc k o2) as [v|] eqn:Hk; cbn [default from_option id].
  - pose proof (assoc_defined o2 k v Hdefined Hk).
    by rewrite !(default_to_id _ v).
  - cbn [default_to]. apply default_to_id. by apply default_to_defined.
Qed.

(** *** PostDTO *)

Lemma PostDTO_fromJson_toJson d :
  PostDTO.fromJson R (PostDTO.toJson d)
  = Ok (PostDTO.constructor (or_else (PostDTO.id d) VNull) (or_else (PostDTO.userId d) VNull)
          (or_else (PostDTO.title d) (VStr EmptyString))
          (or_else (PostDTO.body d) (VStr EmptyString))).
Proof.
  destruct d as [i u t b]. unfold PostDTO.fromJson, PostDTO.toJson. cbn [PostDTO.id
    PostDTO.userId PostDTO.title PostDTO.body].
  destruct i; cbn [is_null negb]; rewrite !get_object; reflexivity.
Qed.

Lemma PostDTO_round_trip_iff (d : PostDTO.instance) :
  PostDTO.fromJson R (PostDTO.toJson d) = Ok d
  ↔ kept_by_or VNull (PostDTO.id d) ∧ kept_by_or VNull (PostDTO.userId d)
    ∧ kept_by_or (VStr EmptyString) (PostDTO.title d)
    ∧ kept_by_or (VStr EmptyString) (PostDTO.body d).
Proof.
  rewrite PostDTO_fromJson_toJson. destruct d as [i u t b]. unfold PostDTO.constructor.
  cbn [PostDTO.id PostDTO.userId PostDTO.title PostDTO.body].
  rewrite <- !default_or_else by done. split.
  - by intros [= -> -> -> ->].
  - by intros (-> & -> & -> & ->).
Qed.



(** X4. [PostDTO.fromJson] throws a [TypeError] on [null] and [undefined]
    and returns on every object.  What it returns has no [undefined] field
    and is a fixed point of [toJson] followed by [fromJson]. *)
Theorem PostDTO_fromJson_normal (json : value) :
  (json = VNull ∨ json = VUndefined → PostDTO.fromJson R json = Throw TypeError)
  ∧ (∀ props, json = VObj props → ∃ d, PostDTO.fromJson R json = Ok d)
  ∧ (∀ d, PostDTO.fromJson R json = Ok d →
          PostDTO.id d ≠ VUndefined ∧ PostDTO.userId d ≠ VUndefined
          ∧ PostDTO.title d ≠ VUndefined ∧ PostDTO.body d ≠ VUndefined
          ∧ PostDTO.fromJson R (PostDTO.toJson d) = Ok d).
Proof.
  split; [by intros [-> | ->]|]. split.
  - intros props ->. unfold PostDTO.fromJson. rewrite !get_object. by eexists.
  - intros d. unfold PostDTO.fromJson.
    destruct (get R json "id") as [i|]; [|done].
    destruct (get R json "userId") as [u|]; [|done].
    destruct (get R json "title") as [t|]; [|done].
    destruct (get R json "body") as [b|]; [|done].
    cbn [mbind result_bind]. intros [= <-]. unfold PostDTO.constructor.
    cbn [PostDTO.id PostDTO.userId PostDTO.title PostDTO.body].
    repeat split; try by apply default_or_else_kept.
    apply PostDTO_round_trip_iff.
    cbn [PostDTO.id PostDTO.userId PostDTO.title PostDTO.body].
    repeat split; by apply default_or_else_kept.
Qed.

(** X5. [copy]: an omitted argument is [{}]; with no overrides the copy
    equals the original, provided no field of the original is [undefined];
    and copying twice is copying once with the second overrides spread
    over the first, provided the second carry no [undefined] value. *)
Theorem PostDTO_copy_laws (d : PostDTO.instance) :
  PostDTO.copy R d VUndefined = PostDTO.copy R d (VObj [])
  ∧ (PostDTO.id d ≠ VUndefined → PostDTO.userId d ≠ VUndefined →
     PostDTO.title d ≠ VUndefined → PostDTO.body d ≠ VUndefined →
     PostDTO.copy R d (VObj []) = Ok d)
  ∧ (∀ o1 o2 d1 d2,
        Forall (λ kv : string * value, kv.2 ≠ VUndefined) o2 →
        PostDTO.copy R d (VObj o1) = Ok d1 →
        PostDTO.copy R d1 (VObj o2) = Ok d2 →
        PostDTO.copy R d (VObj (spread o1 (VObj o2))) = Ok d2).
Proof.
  split; [done|]. split.
  - intros Hi Hu Ht Hb. unfold PostDTO.copy. cbn [default_to].
    rewrite !override_object by reflexivity. cbn [mbind result_bind assoc default from_option id].
    destruct d as [i u t b]. unfold PostDTO.constructor.
    cbn [PostDTO.id PostDTO.userId PostDTO.title PostDTO.body default_to] in *.
    by rewrite !default_to_id.
  - intros o1 o2 d1 d2 Hdefined. unfold PostDTO.copy. cbn [default_to].
    rewrite !override_object by reflexivity. cbn [mbind result_bind].
    intros [= <-]. unfold PostDTO.constructor.
    cbn [PostDTO.id PostDTO.userId PostDTO.title PostDTO.body].
    intros [= <-]. by rewrite <- !copy_field_compose.
Qed.

(** *** CommentDTO *)

Lemma isValidEmail_not_blank s :
  Text.isValidEmail s = true → not_nonempty_string (VStr s) = false.
Proof.
  intros (local & domain & tld & -> & [Hne Hlocal] & _)%isValidEmail_parts.
  apply nonblank_string_spec. eexists. split; [done|].
  rewrite list_ascii_of_string_app. apply Exists_app. left.
  destruct local as [|c local]; [done|]. cbn in Hlocal |- *.
  apply Forall_cons in Hlocal as [Hc _]. constructor.
  unfold Text.not_space_or_at in Hc. by destruct (Text.is_whitespace c).
Qed.





End DTOProps.

(** ** The data generators *)

Section TestUtilsProps.
Import JS DTO TestUtils.
Variable R : realm.

Lemma truthy_successor (n : nat) : truthy (VNum (Z.of_nat n + 1)) = true.
Proof. cbn. by destruct (Z.eqb_spec (Z.of_nat n + 1) 0); [lia|]. Qed.

Lemma positive_successor (n : nat) : not_positive_number (VNum (Z.of_nat n + 1)) = false.
Proof. cbn. by destruct (Z.leb_spec (Z.of_nat n + 1) 0); [lia|]. Qed.

Lemma generated_text_ok (texts : list value) i :
  texts = titles ∨ texts = bodies ∨ texts = names →
  (i < 5)%nat →
  not_nonempty_string (element texts i) = false ∧ truthy (element texts i) = true.
Proof.
  intros [-> | [-> | ->]] Hi;
    destruct i as [|[|[|[|[|i]]]]]; try lia; by vm_compute.
Qed.

Lemma generated_email_ok i :
  (i < 5)%nat →
  ∃ s, element emails i = VStr s ∧ Text.isValidEmail s = true.
Proof.
  intros Hi. destruct i as [|[|[|[|[|i]]]]]; try lia; eexists; split; reflexivity.
Qed.

(** X8. Whatever [Math.random] returns, as long as the two list indices
    drawn from it fall inside their lists, the object that
    [generateRandomPostData()] builds without overrides reads back through
    [PostDTO.fromJson] as a DTO that passes [validate()], without an [id]
    and with the drawn [userId], which is at least 1. *)
Theorem generateRandomPostData_valid (draw1 draw2 draw3 : nat) :
  (draw2 < 5)%nat → (draw3 < 5)%nat →
  ∃ d, PostDTO.fromJson R (generateRandomPostData draw1 draw2 draw3 VUndefined) = Ok d
       ∧ isValid (PostDTO.validate d) = true
       ∧ PostDTO.id d = VNull
       ∧ PostDTO.userId d = VNum (Z.of_nat draw1 + 1).
Proof.
  intros H2 H3.
  destruct (generated_text_ok titles draw2 ltac:(auto) H2) as [Htitle Htitle'].
  destruct (generated_text_ok bodies draw3 ltac:(auto) H3) as [Hbody Hbody'].
  change (generateRandomPostData draw1 draw2 draw3 VUndefined)
    with (VObj [ ("userId", VNum (Z.of_nat draw1 + 1));
                 ("title", element titles draw2);
                 ("body", element bodies draw3) ]).
  unfold PostDTO.fromJson. rewrite !get_object.
  cbn [assoc String.eqb Ascii.eqb Bool.eqb mbind result_bind].
  change (Object_prototype_get VObjectPrototype "id") with VUndefined.
  unfold or_else. rewrite truthy_successor, Htitle', Hbody'. cbn [truthy].
  eexists. split; [reflexivity|].
  unfold PostDTO.constructor, PostDTO.validate, report, push_if.
  cbn [PostDTO.id PostDTO.userId PostDTO.title PostDTO.body default_to].
  rewrite !(default_to_id _ (element _ _)) by (by apply truthy_defined).
  rewrite positive_successor, Htitle, Hbody. by cbn.
Qed.

(** X9. Likewise for [generateRandomCommentData(postId)] when [postId]
    is falsy (a post number is then drawn) or a number above zero (it is
    then kept): the object reads back through [CommentDTO.fromJson] as a
    DTO that passes [validate()]. *)
Theorem generateRandomCommentData_valid (draw1 draw2 draw3 : nat) (postId : value) :
  (draw2 < 5)%nat → (draw3 < 5)%nat →
  truthy postId = false ∨ (∃ n, postId = VNum n ∧ 0 < n) →
  ∃ d, CommentDTO.fromJson R (generateRandomCommentData draw1 draw2 draw3 postId VUndefined)
       = Ok d
       ∧ isValid (CommentDTO.validate d) = true
       ∧ CommentDTO.postId d = (if truthy postId then postId else VNum (Z.of_nat draw1 + 1)).
Proof.
  intros H2 H3 Hpost.
  destruct (generated_text_ok names draw2 ltac:(auto) H2) as [Hname Hname'].
  destruct (generated_email_ok draw3 H3) as (s & Hemail & Hs).
  set (post := if truthy postId then postId else VNum (Z.of_nat draw1 + 1)).
  assert (Hpost' : truthy post = true ∧ not_positive_number post = false).
  { unfold post. destruct Hpost as [-> | (n & -> & Hn)].
    - split; [apply truthy_successor|apply positive_successor].
    - assert (Hn' : truthy (VNum n) = true)
        by (cbn; by destruct (Z.eqb_spec n 0); [lia|]).
      rewrite Hn'. split; [done|].
      unfold not_positive_number. cbn [is_null negb andb].
      by destruct (Z.leb_spec n 0); [lia|]. }
  destruct Hpost' as [Htruthy Hpositive].
  change (generateRandomCommentData draw1 draw2 draw3 postId VUndefined)
    with (VObj [ ("postId", post); ("name", element names draw2);
                 ("email", element emails draw3);
                 ("body", VStr "This is a test comment with some content for testing purposes.") ]).
  unfold CommentDTO.fromJson. rewrite !get_object.
  cbn [assoc String.eqb Ascii.eqb Bool.eqb mbind result_bind].
  change (Object_prototype_get VObjectPrototype "id") with VUndefined.
  rewrite Hemail. unfold or_else. rewrite Htruthy, Hname'.
  assert (Hemail' : truthy (VStr s) = true).
  { pose proof (isValidEmail_not_blank s Hs) as Hblank. by destruct s. }
  rewrite Hemail'. cbn [truthy String.eqb Ascii.eqb Bool.eqb negb].
  eexists. split; [reflexivity|].
  unfold CommentDTO.constructor, CommentDTO.validate, report, push_if, CommentDTO.push_email.
  cbn [CommentDTO.id CommentDTO.postId CommentDTO.name CommentDTO.email CommentDTO.body
       default_to].
  rewrite !(default_to_id _ (element _ _)), (default_to_id _ post) by (by apply truthy_defined).
  rewrite Hpositive, Hname, (isValidEmail_not_blank s Hs), Hs.
  split; [|done]. by vm_compute.
Qed.

(** X10. Overrides win in both generators: a key of the [overrides]
    object has the override's value in the result, and every generated
    property that is not overridden is kept. *)
Theorem generate_overrides (draw1 draw2 draw3 : nat) (postId : value)
    (overrides : list (string * value)) (k : string) :
  (∃ post,
      generateRandomPostData draw1 draw2 draw3 (VObj overrides) = VObj post
      ∧ assoc k post
        = match assoc k overrides with
          | Some v => Some v
          | None => assoc k [ ("userId", VNum (Z.of_nat draw1 + 1));
                              ("title", element titles draw2);
                              ("body", element bodies draw3) ]
          end)
  ∧ (∃ comment,
        generateRandomCommentData draw1 draw2 draw3 postId (VObj overrides) = VObj comment
        ∧ assoc k comment
          = match assoc k overrides with
            | Some v => Some v
            | None =>
                assoc k [ ("postId", if truthy postId then postId
                                     else VNum (Z.of_nat draw1 + 1));
                          ("name", element names draw2);
                          ("email", element emails draw3);
                          ("body", VStr "This is a test comment with some content for testing purposes.") ]
            end).
Proof.
  split; eexists; (split; [reflexivity|]); cbn [default_to]; apply assoc_spread.
Qed.

(** X11. The fixtures agree with the DTOs and the schemas.  Once the
    server has given it an [id] above zero, the [validPost] fixture reads
    back as a DTO that passes [validate()] and whose [toJson()] satisfies
    [postSchema]; likewise [validComment] with [commentSchema].  The
    [invalidPost] fixture reads back as a DTO that [validate()] rejects on
    each of its three fields. *)
Theorem createTestFixtures_consistent (id : Z) :
  0 < id →
  (∃ d, PostDTO.fromJson R (VObj (("id", VNum id) :: validPost)) = Ok d
        ∧ isValid (PostDTO.validate d) = true
        ∧ Validator.validateResponseSchema R (VObj [("data", PostDTO.toJson d)])
            (VObj postSchema)
          = Some (Ok {| Validator.isValid := true; Validator.errors := [] |}))
  ∧ (∃ d, CommentDTO.fromJson R (VObj (("id", VNum id) :: validComment)) = Ok d
          ∧ isValid (CommentDTO.validate d) = true
          ∧ Validator.validateResponseSchema R (VObj [("data", CommentDTO.toJson d)])
              (VObj commentSchema)
            = Some (Ok {| Validator.isValid := true; Validator.errors := [] |}))
  ∧ (∃ d, PostDTO.fromJson R (VObj invalidPost) = Ok d
          ∧ errors (PostDTO.validate d)
            = [ "userId must be a positive number"; "title must be a non-empty string";
                "body must be a non-empty string" ]).
Proof.
  intros Hid.
  assert (Hzero : (id =? 0) = false) by lia.
  assert (Hpositive : (id <=? 0) = false) by lia.
  split; [|split].
  - exists (PostDTO.constructor (VNum id) (VNum 1) (VStr "Test Post")
              (VStr "This is a test post body")).
    split; [|split].
    + unfold PostDTO.fromJson. rewrite !get_object. cbn -[Z.eqb or_else].
      unfold or_else. cbn -[Z.eqb]. by rewrite Hzero.
    + unfold PostDTO.validate. cbn -[Z.leb]. by rewrite Hpositive.
    + reflexivity.
  - exists (CommentDTO.constructor (VNum id) (VNum 1) (VStr "Test User")
              (VStr "test@example.com") (VStr "This is a test comment")).
    split; [|split].
    + unfold CommentDTO.fromJson. rewrite !get_object. cbn -[Z.eqb or_else].
      unfold or_else. cbn -[Z.eqb]. by rewrite Hzero.
    + unfold CommentDTO.validate. cbn -[Z.leb]. by rewrite Hpositive.
    + reflexivity.
  - eexists. split; reflexivity.
Qed.

End TestUtilsProps.

(** ** More on retry with backoff *)

Section RetryMore.
Import Retry.
Context {S V E : Type}.
Implicit Types (fn : @operation S V E) (s : S) (trace : list event).

Lemma sum_snoc (l : list Z) (x : Z) : foldr Z.add 0 (l ++ [x]) = foldr Z.add 0 l + x.
Proof. induction l as [|y l IH]; cbn; [lia|]. rewrite IH. lia. Qed.

Lemma sum_doubling (initialDelay : Z) (k : nat) :
  foldr Z.add 0 ((λ i : nat, initialDelay * 2 ^ Z.of_nat i) <$> seq 0 k)
  = initialDelay * (2 ^ Z.of_nat k - 1).
Proof.
  induction k as [|k IH]; [cbn; lia|].
  rewrite seq_S, fmap_app.
  change ((λ i : nat, initialDelay * 2 ^ Z.of_nat i) <$> [(0 + k)%nat])
    with [initialDelay * 2 ^ Z.of_nat k].
  rewrite sum_snoc, IH, Nat2Z.inj_succ, Z.pow_succ_r by lia. lia.
Qed.

(** X12. When [k] attempts fail before the one that ends the run, the
    waits of the run add up to [initialDelay * (2^k - 1)] milliseconds. *)
Theorem retryWithBackoff_total_wait fn (maxAttempts initialDelay : Z) s (k : nat) :
  Z.of_nat k < maxAttempts →
  (∀ i, (i < k)%nat → fails (nth_outcome fn s i)) →
  (Z.of_nat k + 1 = maxAttempts ∨ ¬ fails (nth_outcome fn s k)) →
  ∃ c s' trace,
    retryWithBackoff fn (Some maxAttempts) (Some initialDelay) s = Some (c, s', trace)
    ∧ foldr Z.add 0 (waits trace) = initialDelay * (2 ^ Z.of_nat k - 1).
Proof.
  intros Hk Hfail Hend. unfold retryWithBackoff. cbn [default from_option id].
  rewrite (retry_loop_run fn maxAttempts initialDelay k); try lia; try done.
  - eexists _, _, _. split; [reflexivity|]. cbn [app].
    by rewrite events_from_one, waits_backoff_trace, sum_doubling.
  - destruct Hend as [Hlast|Hok]; [left; lia|by right].
Qed.

(** What any finished loop has done. *)
Lemma retry_loop_sound fn maxAttempts initialDelay :
  ∀ budget attempt s trace c s' trace',
    retry_loop budget fn maxAttempts initialDelay attempt s trace = Some (c, s', trace') →
    ∃ n, invocations trace' = (invocations trace + n)%nat
         ∧ s' = state_before fn s n
         ∧ (∀ i, (Datatypes.S i < n)%nat → fails (nth_outcome fn s i))
         ∧ match c with
           | Returned v => ∃ k, n = Datatypes.S k ∧ nth_outcome fn s k = Fulfilled v
           | Thrown e => ∃ k, n = Datatypes.S k ∧ nth_outcome fn s k = Rejected e
                              ∧ attempt + Z.of_nat k = maxAttempts
           | ReturnedUndefined => n = 0%nat ∧ maxAttempts < attempt
           end.
Proof.
  induction budget as [|budget IH]; intros attempt s trace c s' trace'; cbn [retry_loop];
    (destruct (Z.leb_spec attempt maxAttempts) as [Hle|Hgt];
     [|intros [= <- <- <-]; exists 0%nat; repeat split; [lia|intros; lia|lia]]);
    destruct (fn s) as [[v|e] s1] eqn:Hfn.
  1, 3: intros [= <- <- <-]; exists 1%nat; rewrite invocations_app;
    (repeat split; [by cbn; rewrite Hfn|intros; lia|]);
    exists 0%nat; split; [done|]; unfold nth_outcome; cbn; by rewrite Hfn.
  - destruct (Z.eqb_spec attempt maxAttempts) as [->|Hne]; [|done].
    intros [= <- <- <-]. exists 1%nat. rewrite invocations_app.
    repeat split; [by cbn; rewrite Hfn|intros; lia|].
    exists 0%nat. repeat split; [|lia]. unfold nth_outcome. cbn. by rewrite Hfn.
  - destruct (Z.eqb_spec attempt maxAttempts) as [->|Hne].
    { intros [= <- <- <-]. exists 1%nat. rewrite invocations_app.
      repeat split; [by cbn; rewrite Hfn|intros; lia|].
      exists 0%nat. repeat split; [|lia]. unfold nth_outcome. cbn. by rewrite Hfn. }
    intros Hrun. apply IH in Hrun as (n & Hcount & Hstate & Hfails & Hc).
    exists (Datatypes.S n). rewrite !invocations_app in Hcount.
    change (invocations [Invoke]) with 1%nat in Hcount.
    change (invocations [Delay _]) with 0%nat in Hcount.
    split; [lia|]. split; [by cbn; rewrite Hfn|]. split.
    + intros [|i] Hi.
      * unfold nth_outcome. cbn. by rewrite Hfn.
      * rewrite nth_outcome_succ, Hfn. apply Hfails. lia.
    + destruct c as [v| |e'].
      * destruct Hc as (k & -> & Hk). exists (Datatypes.S k).
        split; [done|]. by rewrite nth_outcome_succ, Hfn.
      * lia.
      * destruct Hc as (k & -> & Hk & Hlast). exists (Datatypes.S k).
        split; [done|]. rewrite nth_outcome_succ, Hfn. split; [done|lia].
Qed.

(** X13. Whatever the operation does, a finished run has advanced the
    operation's state once per invocation, every invocation but the last
    failed, and what the run returns or throws is what the last invocation
    settled with; it throws only after exactly [maxAttempts] invocations
    and returns [undefined] only without any. *)
Theorem retryWithBackoff_run fn (maxAttempts initialDelay : Z) s c s' trace :
  retryWithBackoff fn (Some maxAttempts) (Some initialDelay) s = Some (c, s', trace) →
  s' = state_before fn s (invocations trace)
  ∧ (∀ i, (Datatypes.S i < invocations trace)%nat → fails (nth_outcome fn s i))
  ∧ match c with
    | Returned v =>
        ∃ k, invocations trace = Datatypes.S k ∧ nth_outcome fn s k = Fulfilled v
    | Thrown e =>
        ∃ k, invocations trace = Datatypes.S k ∧ nth_outcome fn s k = Rejected e
             ∧ Z.of_nat (invocations trace) = maxAttempts
    | ReturnedUndefined => invocations trace = 0%nat ∧ maxAttempts ≤ 0
    end.
Proof.
  unfold retryWithBackoff. cbn [default from_option id].
  intros (n & Hcount & Hstate & Hfails & Hc)%retry_loop_sound.
  change (invocations []) with 0%nat in Hcount. cbn in Hcount. subst n.
  split; [done|]. split; [done|].
  destruct c as [v| |e]; [done| |].
  - destruct Hc. split; [done|lia].
  - destruct Hc as (k & Hk & Hout & Hlast). exists k. repeat split; [done..|lia].
Qed.

Lemma retry_loop_more_attempts fn initialDelay (maxAttempts maxAttempts' : Z) :
  maxAttempts ≤ maxAttempts' →
  ∀ budget budget' attempt s trace v s' trace',
    maxAttempts' - attempt ≤ Z.of_nat budget' →
    retry_loop budget fn maxAttempts initialDelay attempt s trace
    = Some (Returned v, s', trace') →
    retry_loop budget' fn maxAttempts' initialDelay attempt s trace
    = Some (Returned v, s', trace').
Proof.
  intros Hmax. induction budget as [|budget IH];
    intros budget' attempt s trace v s' trace' Hbudget; cbn [retry_loop];
    (destruct (Z.leb_spec attempt maxAttempts) as [Hle|Hgt]; [|done]);
    destruct (fn s) as [[v1|e] s1] eqn:Hfn;
    try (destruct (Z.eqb_spec attempt maxAttempts) as [->|Hne]; [done|]); try done.
  1, 2: intros [= <- <- <-]; destruct budget'; cbn [retry_loop];
    (destruct (Z.leb_spec attempt maxAttempts'); [|lia]); by rewrite Hfn.
  intros Hrun. destruct budget' as [|budget']; [lia|]. cbn [retry_loop].
  destruct (Z.leb_spec attempt maxAttempts'); [|lia]. rewrite Hfn.
  destruct (Z.eqb_spec attempt maxAttempts'); [lia|].
  apply (IH budget'); [lia|done].
Qed.

(** X14. Allowing more attempts never changes a run that returned a
    value: the same value, after the same invocations and waits. *)
Theorem retryWithBackoff_more_attempts fn (maxAttempts maxAttempts' initialDelay : Z)
    s v s' trace :
  maxAttempts ≤ maxAttempts' →
  retryWithBackoff fn (Some maxAttempts) (Some initialDelay) s
  = Some (Returned v, s', trace) →
  retryWithBackoff fn (Some maxAttempts') (Some initialDelay) s
  = Some (Returned v, s', trace).
Proof.
  intros Hmax. unfold retryWithBackoff. cbn [default from_option id].
  apply retry_loop_more_attempts; [done|lia].
Qed.

End RetryMore.

(** ** More on response validation *)

Section ValidatorMore.
Import JS Validator Schema.
Variable R : realm.

Lemma check_key_is_missing obj schemaObj path key :
  is_missing R obj key = true →
  check_key R obj schemaObj path key
  = Ok (Report ("Missing property: " +:+ full_path path key)).
Proof.
  unfold is_missing, check_key. by destruct (has_property R key obj) as [[|]|].
Qed.

(** The loop only ever appends to [errors], and it appends the message of
    every key that is missing. *)
Lemma for_each_key_grows recur obj schemaObj path keys :
  (∀ a s p e e', recur a s p e = Some (Ok e') → ∃ more, e' = e ++ more) →
  ∀ errs errs',
    for_each_key R recur obj schemaObj path keys errs = Some (Ok errs') →
    ∃ more, errs' = errs ++ more ∧ sublist (missing_messages R obj path keys) more.
Proof.
  intros Hrecur. unfold missing_messages.
  induction keys as [|key keys IH]; intros errs errs'; cbn [for_each_key].
  - intros [= <-]. exists []. by rewrite app_nil_r.
  - rewrite filter_cons. destruct (is_missing R obj key) eqn:Hmissing.
    + rewrite decide_True, check_key_is_missing by done. cbn [fmap list_fmap].
      intros (more & -> & Hsub)%IH.
      exists (("Missing property: " +:+ full_path path key) :: more).
      rewrite <- app_assoc. split; [done|]. by apply sublist_skip.
    + rewrite decide_False by done.
      destruct (check_key R obj schemaObj path key) as [[message|a s p|]|]; [| | |done].
      * intros (more & -> & Hsub)%IH. exists (message :: more).
        rewrite <- app_assoc. split; [done|]. by apply sublist_cons.
      * destruct (recur a s p errs) as [[errs1|]|] eqn:Hnested; [|done..].
        apply Hrecur in Hnested as [more1 ->].
        intros (more & -> & Hsub)%IH. exists (more1 ++ more).
        rewrite <- app_assoc. split; [done|]. by apply sublist_inserts_l.
      * apply IH.
Qed.

Lemma validateObject_grows fuel :
  ∀ obj schemaObj path errs errs',
    validateObject R fuel obj schemaObj path errs = Some (Ok errs') →
    ∃ more, errs' = errs ++ more.
Proof.
  induction fuel as [|fuel IH]; intros obj schemaObj path errs errs'; cbn [validateObject];
    [done|].
  intros (more & -> & _)%for_each_key_grows; [by exists more|].
  intros a s p e e'. apply IH.
Qed.

(** X15. Whenever [validateResponseSchema] returns, [errors] contains, in
    schema order, ["Missing property: <key>"] for every schema key that the
    body lacks; so [errors] is at least as long as the number of missing
    keys, and [isValid] is [false] as soon as one key is missing. *)
Theorem validateResponseSchema_reports_missing (response data schema : value)
    (r : validation) :
  get R response "data" = Ok data →
  validateResponseSchema R response schema = Some (Ok r) →
  sublist (missing_messages R data EmptyString (own_keys schema)) (errors r)
  ∧ (missing_messages R data EmptyString (own_keys schema) ≠ [] → isValid r = false).
Proof.
  intros Hdata. unfold validateResponseSchema, validateResponseSchema_fuel. rewrite Hdata.
  destruct (validateObject R 2 data schema EmptyString []) as [[errs|]|] eqn:Hrun; [|done..].
  intros [= <-]. cbn [errors isValid].
  cbn [validateObject] in Hrun.
  apply for_each_key_grows in Hrun as (more & -> & Hsub).
  - cbn [app]. split; [done|]. intros Hmissing. apply bool_decide_eq_false_2.
    destruct more; [|done]. by apply sublist_nil_r in Hsub.
  - intros a s p e e'. apply (validateObject_grows 1).
Qed.

Lemma assoc_Forall (P : value → Prop) props k v :
  Forall (λ kv : string * value, P kv.2) props → assoc k props = Some v → P v.
Proof.
  induction 1 as [|[k0 v0] props Hv _ IH]; cbn [assoc]; [done|].
  destruct (String.eqb k0 k); [by intros [= <-]|done].
Qed.

(** One key of a flat schema against an object. *)
Lemma check_key_flat dprops sprops path key type :
  assoc key sprops = Some (VStr type) →
  type ≠ "object" →
  (check_key R (VObj dprops) (VObj sprops) path key = Ok Accept
   ∧ conforms R (VObj dprops) key type)
  ∨ (∃ message, check_key R (VObj dprops) (VObj sprops) path key = Ok (Report message)
                ∧ ¬ conforms R (VObj dprops) key type).
Proof.
  intros Hschema Hobject. unfold check_key, conforms.
  rewrite !get_object, Hschema. cbn [has_property mbind result_bind].
  set (present := bool_decide (is_Some (assoc key dprops)) || Object_prototype_has key).
  set (v := match assoc key dprops with
            | Some x => x
            | None => Object_prototype_get VObjectPrototype key
            end).
  destruct present; cbn [negb]; [|right; eexists; split; [done|by intros [[=] _]]].
  cbn [is_string]. destruct (String.eqb_spec type "array") as [->|Harray].
  - cbn [andb negb]. destruct (isArray R v) eqn:Hv; cbn [negb].
    + left. split; [done|]. split; [done|]. by exists v.
    + right. eexists. split; [done|]. intros [_ (v' & [= <-] & Hv')]. congruence.
  - cbn [andb negb]. destruct (String.eqb_spec type (typeof v)) as [Htype|Htype]; cbn [negb].
    + destruct (String.eqb_spec type "object"); [done|]. cbn [andb].
      left. split; [done|]. split; [done|]. by exists v.
    + right. eexists. split; [done|]. intros [_ (v' & [= <-] & Hv')]. congruence.
Qed.

Lemma for_each_key_flat recur dprops sprops path keys :
  Forall (λ kv : string * value, ∃ type, kv.2 = VStr type ∧ type ≠ "object") sprops →
  keys ⊆ sprops.*1 →
  ∀ errs, ∃ more,
    for_each_key R recur (VObj dprops) (VObj sprops) path keys errs = Some (Ok (errs ++ more))
    ∧ (length more ≤ length keys)%nat
    ∧ (more = [] ↔ ∀ key type, key ∈ keys → assoc key sprops = Some (VStr type) →
                               conforms R (VObj dprops) key type).
Proof.
  intros Hflat. induction keys as [|key keys IH]; intros Hkeys errs; cbn [for_each_key].
  - exists []. rewrite app_nil_r. split; [done|]. split; [done|].
    split; [by intros _ ? ? ?%elem_of_nil|done].
  - assert (Hkey : key ∈ sprops.*1) by (apply Hkeys; by left).
    apply assoc_is_Some in Hkey as [v Hv].
    destruct (assoc_Forall (λ v, ∃ type, v = VStr type ∧ type ≠ "object") _ _ _ Hflat Hv)
      as (type & -> & Htype).
    destruct (IH ltac:(set_solver) errs) as (more0 & _ & _ & _).
    destruct (check_key_flat dprops sprops path key type Hv Htype)
      as [[-> Hconforms]|(message & -> & Hnot)].
    + destruct (IH ltac:(set_solver) errs) as (more & -> & Hlength & Hiff).
      exists more. split; [done|]. split; [cbn; lia|]. rewrite Hiff. split.
      * intros Hall k ty [->|Hk]%elem_of_cons Hty; [|by eapply Hall].
        rewrite Hv in Hty. by injection Hty as <-.
      * intros Hall k ty Hk. apply Hall. by right.
    + destruct (IH ltac:(set_solver) (errs ++ [message])) as (more & -> & Hlength & _).
      exists (message :: more). rewrite <- app_assoc. split; [done|]. split; [cbn; lia|].
      split; [done|]. intros Hall. exfalso. apply Hnot, Hall; [by left|done].
Qed.

(** X16. For a body that is an object and a flat schema (every entry a
    type name other than ['object']), [validateResponseSchema] returns,
    with at most one error per schema key, and [isValid] holds exactly when
    the body has every schema key with a value of the named type. *)
Theorem validateResponseSchema_flat (response : value)
    (dprops sprops : list (string * value)) :
  get R response "data" = Ok (VObj dprops) →
  Forall (λ kv : string * value, ∃ type, kv.2 = VStr type ∧ type ≠ "object") sprops →
  ∃ r, validateResponseSchema R response (VObj sprops) = Some (Ok r)
       ∧ (length (errors r) ≤ length sprops)%nat
       ∧ (isValid r = true
          ↔ ∀ key type, assoc key sprops = Some (VStr type) →
                        conforms R (VObj dprops) key type).
Proof.
  intros Hdata Hflat. unfold validateResponseSchema, validateResponseSchema_fuel.
  rewrite Hdata.
  change (validateObject R 2 (VObj dprops) (VObj sprops) EmptyString [])
    with (for_each_key R (validateObject R 1) (VObj dprops) (VObj sprops) EmptyString
            (sprops.*1) []).
  destruct (for_each_key_flat (validateObject R 1) dprops sprops EmptyString (sprops.*1)
              Hflat ltac:(done) []) as (more & -> & Hlength & Hiff).
  eexists. split; [done|]. cbn [errors isValid app].
  split; [by rewrite length_fmap in Hlength|].
  rewrite bool_decide_eq_true, length_zero_iff_nil, Hiff. split.
  - intros Hall key type Hkey. apply Hall; [|done]. apply assoc_is_Some. by eexists.
  - intros Hall key type _. apply Hall.
Qed.

(** The letters of ['object'] as a schema: every key is reported. *)
Lemma check_key_letters p path key :
  key ∈ own_keys (VStr "object") →
  ∃ message, check_key R (VObj p) (VStr "object") path key = Ok (Report message).
Proof.
  intros Hkey. change (own_keys (VStr "object")) with ["0"; "1"; "2"; "3"; "4"; "5"] in Hkey.
  unfold check_key. rewrite get_object. cbn [has_property mbind result_bind].
  destruct (bool_decide (is_Some (assoc key p)) || Object_prototype_has key);
    cbn [negb]; [|by eexists].
  set (v := match assoc key p with
            | Some x => x
            | None => Object_prototype_get VObjectPrototype key
            end).
  repeat (apply elem_of_cons in Hkey as [->|Hkey];
          [destruct v as [| |?|?|?|?|?| |[|] ?]; by eexists|]).
  by apply elem_of_nil in Hkey.
Qed.

Lemma for_each_key_all_reported recur obj schemaObj path keys :
  (∀ key, key ∈ keys → ∃ message, check_key R obj schemaObj path key = Ok (Report message)) →
  ∀ errs, ∃ more,
    for_each_key R recur obj schemaObj path keys errs = Some (Ok (errs ++ more))
    ∧ length more = length keys.
Proof.
  induction keys as [|key keys IH]; intros Hall errs; cbn [for_each_key].
  - exists []. by rewrite app_nil_r.
  - destruct (Hall key ltac:(by left)) as [message ->].
    destruct (IH ltac:(intros; apply Hall; by right) (errs ++ [message])) as (more & -> & Hlength).
    exists (message :: more). rewrite <- app_assoc. split; [done|]. cbn. by rewrite Hlength.
Qed.

Lemma validateObject_letters fuel p path errs :
  ∃ more, validateObject R (S fuel) (VObj p) (VStr "object") path errs
          = Some (Ok (errs ++ more))
          ∧ length more = 6%nat.
Proof.
  cbn [validateObject].
  destruct (for_each_key_all_reported (validateObject R fuel) (VObj p) (VStr "object") path
              (own_keys (VStr "object")) (check_key_letters p path) errs)
    as (more & -> & Hlength).
  by exists more.
Qed.

Lemma for_each_key_descend_count recur obj schemaObj path keys key a s p :
  (∀ a s p e e', recur a s p e = Some (Ok e') → ∃ more, e' = e ++ more) →
  (∀ e e', recur a s p e = Some (Ok e') → (length e + 6 ≤ length e')%nat) →
  key ∈ keys →
  check_key R obj schemaObj path key = Ok (Descend a s p) →
  ∀ errs errs',
    for_each_key R recur obj schemaObj path keys errs = Some (Ok errs') →
    (length errs + 6 ≤ length errs')%nat.
Proof.
  intros Hgrows Hsix. induction keys as [|key0 keys IH]; intros Hkey Hcheck errs errs';
    [by apply elem_of_nil in Hkey|].
  cbn [for_each_key]. destruct (decide (key0 = key)) as [->|Hne].
  - rewrite Hcheck. destruct (recur a s p errs) as [[errs1|]|] eqn:Hnested; [|done..].
    apply Hsix in Hnested.
    intros (more & -> & _)%for_each_key_grows; [|done]. rewrite length_app. lia.
  - apply elem_of_cons in Hkey as [->|Hkey]; [done|].
    destruct (check_key R obj schemaObj path key0) as [[message|a0 s0 p0|]|]; [| | |done].
    + intros Hrun%IH; [|done..]. rewrite length_app in Hrun. cbn in Hrun. lia.
    + destruct (recur a0 s0 p0 errs) as [[errs1|]|] eqn:Hnested; [|done..].
      apply Hgrows in Hnested as [more1 ->].
      intros Hrun%IH; [|done..]. rewrite length_app in Hrun. lia.
    + by apply IH.
Qed.

(** X17. The type name ['object'] in a schema.  The nested call walks the
    six letters of that name, so for a plain object it adds exactly six
    errors, whatever the object holds; a response whose ['object'] entry
    holds a plain object is therefore never valid.  A [null] there is
    accepted. *)
Theorem validateResponseSchema_object_type :
  (∀ fuel p path errs,
      ∃ more, validateObject R (S fuel) (VObj p) (VStr "object") path errs
              = Some (Ok (errs ++ more))
              ∧ length more = 6%nat)
  ∧ (∀ response dprops sprops key p r,
        get R response "data" = Ok (VObj dprops) →
        assoc key dprops = Some (VObj p) →
        assoc key sprops = Some (VStr "object") →
        validateResponseSchema R response (VObj sprops) = Some (Ok r) →
        isValid r = false ∧ (6 ≤ length (errors r))%nat)
  ∧ (∀ obj schemaObj path key,
        has_property R key obj = Ok true →
        get R schemaObj key = Ok (VStr "object") →
        get R obj key = Ok VNull →
        check_key R obj schemaObj path key = Ok Accept).
Proof.
  split; [apply validateObject_letters|]. split.
  - intros response dprops sprops key p r Hdata Hobj Hschema.
    unfold validateResponseSchema, validateResponseSchema_fuel. rewrite Hdata.
    destruct (validateObject R 2 (VObj dprops) (VObj sprops) EmptyString []) as [[errs|]|]
      eqn:Hrun; [|done..].
    intros [= <-]. cbn [isValid errors].
    change (validateObject R 2 (VObj dprops) (VObj sprops) EmptyString [])
      with (for_each_key R (validateObject R 1) (VObj dprops) (VObj sprops) EmptyString
              (sprops.*1) []) in Hrun.
    assert (Hlength : (length (@nil string) + 6 ≤ length errs)%nat).
    { eapply (for_each_key_descend_count _ _ _ _ _ key (VObj p) (VStr "object")
                (full_path EmptyString key)); [| | | |exact Hrun].
      - intros a s p0 e e'. apply (validateObject_grows 1).
      - intros e e' Hnested.
        destruct (validateObject_letters 0 p (full_path EmptyString key) e)
          as (more & Heq & Hmore).
        rewrite Heq in Hnested. injection Hnested as <-. rewrite length_app. lia.
      - apply assoc_is_Some. by eexists.
      - unfold check_key. rewrite !get_object, Hobj, Hschema.
        cbn [has_property]. rewrite Hobj.
        by rewrite (bool_decide_eq_true_2 (is_Some (Some (VObj p)))) by by eexists. }
    cbn in Hlength. split; [|done]. apply bool_decide_eq_false_2. lia.
  - intros obj schemaObj path key Hin Hschema Hobj. unfold check_key.
    by rewrite Hin, Hschema, Hobj.
Qed.

End ValidatorMore.

Section ConfigMore.
Import JS Config.
Variable R : realm.

(** X18. Outside [headers], the resolved configuration is the base
    configuration overlaid with the selected environment: a key of the
    environment carries the environment's value, every other key of the
    base keeps its own (the [environments] table included).  [headers] is
    always an object of the result, also when neither side has one. *)
Theorem resolve_top_level (cfg env : list (string * value)) (environment : string) :
  select_environment R (VObj cfg) environment = Ok (VObj env) →
  ∃ resolved headers,
    resolve R (VObj cfg) environment = Ok (VObj resolved)
    ∧ assoc "headers" resolved = Some (VObj headers)
    ∧ ∀ k, k ≠ "headers" →
           assoc k resolved = match assoc k env with
                              | Some v => Some v
                              | None => assoc k cfg
                              end.
Proof.
  intros Hselect. unfold resolve. rewrite Hselect. cbn [mbind result_bind].
  rewrite !get_object. cbn [mbind result_bind].
  eexists _, _. split; [reflexivity|]. split.
  - by rewrite assoc_obj_set, String.eqb_refl.
  - intros k Hk. rewrite assoc_obj_set.
    destruct (String.eqb_spec "headers" k) as [<-|_]; [done|].
    rewrite !assoc_spread. destruct (assoc k env); [done|]. by destruct (assoc k cfg).
Qed.

End ConfigMore.

Lemma resolve_top_level_witness :
  ∃ resolved headers,
    Config.resolve Samples.bare_realm Samples.config_with_staging_headers "staging"
    = Ok (JS.VObj resolved)
    ∧ JS.assoc "headers" resolved = Some (JS.VObj headers)
    ∧ ∀ k, k ≠ "headers" →
           JS.assoc k resolved
           = match JS.assoc k [("timeout", JS.VNum 10000);
                               ("headers", JS.VObj [("Accept", JS.VStr "text/plain");
                                                    ("X-Env", JS.VStr "staging")])] with
             | Some v => Some v
             | None =>
                 match Samples.config_with_staging_headers with
                 | JS.VObj cfg => JS.assoc k cfg
                 | _ => None
                 end
             end.
Proof.
  apply (resolve_top_level Samples.bare_realm _
           [("timeout", JS.VNum 10000);
            ("headers", JS.VObj [("Accept", JS.VStr "text/plain");
                                 ("X-Env", JS.VStr "staging")])] "staging").
  reflexivity.
Defined.

Section HttpMore.
Import Http.
Context {response failure : Type}.
Variable transport :
  axios_defaults → verb → string → JS.value → JS.value → response + failure.
Variable response_status : response → string.
Variable failure_status : failure → option string.

Lemma axios_defaults_eq (d1 d2 : axios_defaults) :
  baseURL d1 = baseURL d2 → timeout d1 = timeout d2 →
  headers_common d1 = headers_common d2 → headers_scoped d1 = headers_scoped d2 →
  d1 = d2.
Proof. destruct d1, d2; cbn; by intros -> -> -> ->. Qed.

(** X19. Setting the authorization header, issuing any calls, and clearing
    it again brings the defaults of the client back to what they were
    exactly when no [Authorization] default was set before: one that was
    there is lost. *)
Theorem clearAuthorization_restores (token : string) (scheme : option string)
    (c : HttpClient) (l : list (verb * string * JS.value * JS.value)) :
  defaults (clearAuthorization
              (calls transport response_status failure_status l
                 (setAuthorization token scheme c)))
  = defaults c
  ↔ headers_common (defaults c) !! "Authorization" = None.
Proof.
  set (set := setAuthorization token scheme c).
  set (later := calls transport response_status failure_status l set).
  destruct (calls_frame transport response_status failure_status l set) as [Hdefaults _].
  fold later in Hdefaults.
  assert (Hcommon : headers_common (defaults (clearAuthorization later))
                    = base.delete "Authorization" (headers_common (defaults c))).
  { change (headers_common (defaults (clearAuthorization later)))
      with (base.delete "Authorization" (headers_common (defaults later))).
    rewrite Hdefaults.
    change (headers_common (defaults set))
      with (<["Authorization" := default "Bearer" scheme +:+ " " +:+ token]>
              (headers_common (defaults c))).
    apply map_eq. intros k. destruct (decide (k = "Authorization")) as [->|Hk].
    - by rewrite !lookup_delete_eq.
    - by rewrite !lookup_delete_ne, lookup_insert_ne. }
  split.
  - intros Heq. rewrite <- Heq, Hcommon. apply lookup_delete_eq.
  - intros Hnone. apply axios_defaults_eq.
    + change (baseURL (defaults (clearAuthorization later))) with (baseURL (defaults later)).
      by rewrite Hdefaults.
    + change (timeout (defaults (clearAuthorization later))) with (timeout (defaults later)).
      by rewrite Hdefaults.
    + rewrite Hcommon. by apply delete_id.
    + change (headers_scoped (defaults (clearAuthorization later)))
        with (headers_scoped (defaults later)).
      by rewrite Hdefaults.
Qed.

(** X20. [setDefaultHeaders] overlays the given headers on the common
    defaults: a given header takes the given value, every other keeps its
    own.  Two calls amount to one call with the later headers laid over the
    earlier ones, and [setAuthorization] leaves the defaults that
    [setDefaultHeaders] with the one [Authorization] header leaves. *)
Theorem setDefaultHeaders_overlay (headers later : gmap string string) (c : HttpClient) :
  (∀ k, headers_common (defaults (setDefaultHeaders headers c)) !! k
        = match headers !! k with
          | Some v => Some v
          | None => headers_common (defaults c) !! k
          end)
  ∧ defaults (setDefaultHeaders later (setDefaultHeaders headers c))
    = defaults (setDefaultHeaders (later ∪ headers) c)
  ∧ ∀ token scheme,
      defaults (setAuthorization token scheme c)
      = defaults (setDefaultHeaders
                    {[ "Authorization" := default "Bearer" scheme +:+ " " +:+ token ]} c).
Proof.
  split; [|split].
  - intros k.
    change (headers_common (defaults (setDefaultHeaders headers c)))
      with (headers ∪ headers_common (defaults c)).
    destruct (headers !! k) as [v|] eqn:Hk;
      [by apply lookup_union_Some_l|by apply lookup_union_r].
  - apply axios_defaults_eq; try reflexivity.
    change (later ∪ (headers ∪ headers_common (defaults c))
            = later ∪ headers ∪ headers_common (defaults c)).
    apply (assoc_L (∪)).
  - intros token scheme. apply axios_defaults_eq; try reflexivity.
    change (<["Authorization" := default "Bearer" scheme +:+ " " +:+ token]>
              (headers_common (defaults c))
            = {[ "Authorization" := default "Bearer" scheme +:+ " " +:+ token ]}
              ∪ headers_common (defaults c)).
    by rewrite insert_union_singleton_l.
Qed.



End HttpMore.

Section FluentMore.
Import Fluent.
Variable E : externals.

Lemma actual_field_read this field h : (actual_field E this field h).2 = h.
Proof.
  unfold actual_field, mbind, M_bind, get, lift.
  by repeat match goal with |- context [match ?r with Ok _ => _ | Throw _ => _ end] =>
                             destruct r
            end.
Qed.

Lemma chain_yields checks this h v h' :
  chain E checks (JRef this) h = (Ok v, h') → v = JRef this.
Proof.
  revert h. induction checks as [|c checks IH]; intros h; cbn [chain].
  - by intros [= <- _].
  - unfold mbind, M_bind.
    destruct (invoke E c this h) as [[r1|e] h1] eqn:Hinvoke; [|done].
    pose proof (invoke_yields E c this h r1 h1 Hinvoke) as ->. apply IH.
Qed.

Lemma toHaveBody_verdict this h data :
  actual_field E this "data" h = (Ok data, h) →
  (toHaveBody E this h).1
  = if bool_decide (data ∈ [JUndefined; JNull])
    then Throw AssertionError else Ok (JRef this).
Proof.
  intros Hdata. unfold toHaveBody, mbind, M_bind. rewrite Hdata.
  unfold expect_not_undefined, expect_not_null, strict_equals.
  destruct (decide (data = JUndefined)) as [->|Hundefined].
  { by rewrite (bool_decide_eq_true_2 (JUndefined ∈ [JUndefined; JNull])) by by left. }
  rewrite (bool_decide_eq_false_2 (data = JUndefined)) by done.
  cbn [negb assert]. unfold mret at 1, M_ret at 1. rewrite Hdata.
  destruct (decide (data = JNull)) as [->|Hnull].
  { by rewrite (bool_decide_eq_true_2 (JNull ∈ [JUndefined; JNull])) by (right; by left). }
  rewrite (bool_decide_eq_false_2 (data = JNull)) by done.
  rewrite (bool_decide_eq_false_2 (data ∈ [JUndefined; JNull])); [done|].
  rewrite !not_elem_of_cons. repeat split; try done. apply not_elem_of_nil.
Qed.

(** X22. [toHaveBody] passes exactly when the body is neither [undefined]
    nor [null]; [toHaveEmptyBody] passes exactly when it is [null],
    [undefined] or the empty string.  So every body passes at least one of
    the two, and the empty string, and nothing else, passes both. *)
Theorem toHaveBody_toHaveEmptyBody this h data :
  actual_field E this "data" h = (Ok data, h) →
  (∀ l, data = JRef l → is_Some (h !! l)) →
  let body := (toHaveBody E this h).1 in
  let empty := (toHaveEmptyBody E this h).1 in
  (body = Ok (JRef this) ↔ data ≠ JUndefined ∧ data ≠ JNull)
  ∧ (empty = Ok (JRef this) ↔ data ∈ [JNull; JUndefined; JStr EmptyString])
  ∧ (body = Ok (JRef this) ∨ empty = Ok (JRef this))
  ∧ (body = Ok (JRef this) ∧ empty = Ok (JRef this) ↔ data = JStr EmptyString).
Proof.
  intros Hdata Hlive body empty. subst body empty.
  rewrite (toHaveBody_verdict this h data Hdata).
  rewrite (toHaveEmptyBody_verdict E this h data Hdata Hlive).
  assert (Hbody : (if bool_decide (data ∈ [JUndefined; JNull])
                   then Throw AssertionError else Ok (JRef this)) = Ok (JRef this)
                  ↔ data ≠ JUndefined ∧ data ≠ JNull).
  { case_bool_decide as Hin.
    - split; [done|]. intros [Hundefined Hnull].
      apply elem_of_cons in Hin as [->|Hin]; [done|].
      apply elem_of_cons in Hin as [->|Hin]; [done|]. by apply elem_of_nil in Hin.
    - split; [|done]. intros _. rewrite !not_elem_of_cons in Hin. by destruct Hin as (? & ? & _). }
  assert (Hempty : (if bool_decide (data ∈ [JNull; JUndefined; JStr EmptyString])
                    then Ok (JRef this) else Throw AssertionError) = Ok (JRef this)
                   ↔ data ∈ [JNull; JUndefined; JStr EmptyString]).
  { destruct (decide (data ∈ [JNull; JUndefined; JStr EmptyString])) as [Hin|Hout].
    - by rewrite bool_decide_eq_true_2.
    - by rewrite bool_decide_eq_false_2. }
  rewrite Hbody, Hempty. split; [done|]. split; [done|]. split.
  - destruct (decide (data = JUndefined)) as [->|Hundefined]; [right; right; by left|].
    destruct (decide (data = JNull)) as [->|Hnull]; [right; by left|]. by left.
  - split.
    + intros [[Hundefined Hnull] Hin].
      apply elem_of_cons in Hin as [->|Hin]; [done|].
      apply elem_of_cons in Hin as [->|Hin]; [done|].
      apply elem_of_cons in Hin as [->|Hin]; [done|]. by apply elem_of_nil in Hin.
    + intros ->. split; [done|]. right; right; by left.
Qed.

(** X23. [toHaveProperties(properties)] is the chain of [toHaveProperty]
    over the same names: the same verdict, the same instance returned, the
    same heap. *)
Theorem toHaveProperties_chain (properties : list string) this h :
  toHaveProperties E this properties h
  = chain E (ToHaveProperty <$> properties) (JRef this) h.
Proof.
  revert h. induction properties as [|p properties IH]; intros h; [done|].
  specialize (IH). unfold toHaveProperties in IH |- *.
  cbn [fmap list_fmap chain invoke forEach]. unfold toHaveProperty.
  unfold mbind, M_bind in IH |- *.
  destruct (actual_field E this "data" h) as [[data|e] h1]; [|done].
  destruct (expect_property E data p h1) as [[[]|e] h2]; [|done].
  unfold mret at 2, M_ret at 2. apply IH.
Qed.

Lemma forEach_ext_at {A} (l : list A) (f g : A → M ()) h :
  (∀ x, x ∈ l → f x h = g x h) →
  (∀ x, (g x h).2 = h) →
  forEach l f h = forEach l g h.
Proof.
  intros Hext Hread. induction l as [|x l IH]; [done|].
  cbn [forEach]. unfold mbind, M_bind.
  rewrite (Hext x) by by left.
  specialize (Hread x). destruct (g x h) as [[[]|e] h1]; [|done].
  cbn in Hread. subst h1. apply IH. intros y Hy. apply Hext. by right.
Qed.

Lemma fluent_assoc_is_Some k (props : list (string * jsval)) :
  k ∈ props.*1 → ∃ v, assoc k props = Some v ∧ (k, v) ∈ props.
Proof.
  induction props as [|[k0 v0] props IH]; cbn [assoc fmap list_fmap fst].
  - by intros ?%elem_of_nil.
  - destruct (String.eqb_spec k0 k) as [->|Hne].
    + intros _. exists v0. split; [done|by left].
    + intros [?|Hin]%elem_of_cons; [done|].
      destruct (IH Hin) as (v & Hv & Hmem). exists v. split; [done|by right].
Qed.

(** X24. When no entry of the schema is an object, [toMatchSchema] checks
    the presence of the schema's keys and nothing else: it is
    [toHaveProperties] on those keys, whatever the entries say (type names
    such as ['number'] are never compared with the body). *)
Theorem toMatchSchema_presence_only this (schema : loc) props h :
  h !! schema = Some (OObj props) →
  Forall (λ kv : string * jsval, ∀ l, kv.2 ≠ JRef l) props →
  toMatchSchema E this (JRef schema) h = toHaveProperties E this props.*1 h.
Proof.
  intros Hschema Hflat. unfold toMatchSchema, toHaveProperties.
  unfold mbind at 1, M_bind at 1, Object_keys at 1, lift at 1. rewrite Hschema.
  unfold mbind at 1 5, M_bind at 1 5.
  erewrite forEach_ext_at; [done| |].
  - intros key Hkey.
    destruct (fluent_assoc_is_Some key props Hkey) as (v & Hv & Hmem).
    rewrite Forall_forall in Hflat. specialize (Hflat _ Hmem). cbn in Hflat.
    unfold mbind, M_bind.
    pose proof (actual_field_read this "data" h) as Hread.
    destruct (actual_field E this "data" h) as [[data|e] h1]; [|done].
    cbn in Hread. subst h1.
    pose proof (assert_heap (match data with
                             | JUndefined | JNull => false
                             | _ => has_property E h data key
                             end) h) as Hread.
    unfold expect_property.
    destruct (assert _ h) as [[[]|e] h1]; [|done]. cbn in Hread. subst h1.
    unfold get, typeof, lift. cbn beta iota. rewrite !Hschema.
    cbn [mbind option_bind get_own]. rewrite !Hv.
    destruct v as [| |b|n|s|l]; try done. by destruct (Hflat l).
  - intros key. unfold mbind, M_bind.
    pose proof (actual_field_read this "data" h) as Hread.
    destruct (actual_field E this "data" h) as [[data|e] h1]; [|done].
    cbn in Hread. subst h1. apply assert_heap.
Qed.

(** X25. A call chain in two parts: when the first part fails, the whole
    chain fails with the same error in the same heap and no check of the
    second part runs; when it passes, the second part runs on the same
    instance in the heap the first part left. *)
Theorem chain_app (first second : list check) this h :
  chain E (first ++ second) (JRef this) h
  = match chain E first (JRef this) h with
    | (Ok _, h1) => chain E second (JRef this) h1
    | (Throw e, h1) => (Throw e, h1)
    end.
Proof.
  revert h. induction first as [|c first IH]; intros h; [done|].
  cbn [app chain]. unfold mbind, M_bind.
  destruct (invoke E c this h) as [[r1|e] h1] eqn:Hinvoke; [|done].
  pose proof (invoke_yields E c this h r1 h1 Hinvoke) as ->. apply IH.
Qed.

(** X26. Whatever checks pass in between, [getActual()] at the end of a
    chain started with [expectResponse(response)] returns that very
    [response]; the instance is a new object. *)
Theorem getActual_after_chain (response : jsval) (checks : list check) h receiver h0 v h' :
  expectResponse response h = (Ok receiver, h0) →
  chain E checks receiver h0 = (Ok v, h') →
  ∃ this, receiver = JRef this ∧ v = JRef this ∧ h !! this = None
          ∧ getActual E this h' = (Ok response, h').
Proof.
  unfold expectResponse, constructor, alloc. intros [= <- <-] Hchain.
  set (this := fresh (dom h)) in *. exists this.
  split; [done|]. split; [by eapply chain_yields|].
  split; [apply not_elem_of_dom, is_fresh|].
  pose proof (chain_extends E checks (JRef this) _ _ _ Hchain) as Hsub.
  assert (Hthis : h' !! this = Some (OObj [("actual", response)])).
  { eapply lookup_weaken; [|exact Hsub]. apply lookup_insert_eq. }
  unfold getActual, get, lift. by rewrite Hthis.
Qed.

End FluentMore.

(** ** The theorems above on examples *)


Lemma PostDTO_fromJson_normal_witness :
  DTO.PostDTO.fromJson Samples.bare_realm JS.VNull = Throw TypeError.
Proof.
  apply (proj1 (PostDTO_fromJson_normal Samples.bare_realm JS.VNull)).
  left. reflexivity.
Defined.

Lemma PostDTO_copy_laws_witness :
  DTO.PostDTO.copy Samples.bare_realm
    (DTO.PostDTO.constructor (JS.VNum 7) (JS.VNum 1) (JS.VStr "Test Post")
       (JS.VStr "This is a test post body"))
    (JS.VObj [])
  = Ok (DTO.PostDTO.constructor (JS.VNum 7) (JS.VNum 1) (JS.VStr "Test Post")
          (JS.VStr "This is a test post body")).
Proof.
  apply (proj1 (proj2 (PostDTO_copy_laws Samples.bare_realm
                         (DTO.PostDTO.constructor (JS.VNum 7) (JS.VNum 1)
                            (JS.VStr "Test Post") (JS.VStr "This is a test post body")))));
    discriminate.
Defined.


Lemma generateRandomPostData_valid_witness :
  ∃ d, DTO.PostDTO.fromJson Samples.bare_realm
         (TestUtils.generateRandomPostData 6 2 4 JS.VUndefined) = Ok d
       ∧ DTO.isValid (DTO.PostDTO.validate d) = true
       ∧ DTO.PostDTO.id d = JS.VNull
       ∧ DTO.PostDTO.userId d = JS.VNum (Z.of_nat 6 + 1).
Proof. apply (generateRandomPostData_valid Samples.bare_realm 6 2 4); lia. Defined.

Lemma generateRandomCommentData_valid_witness :
  ∃ d, DTO.CommentDTO.fromJson Samples.bare_realm
         (TestUtils.generateRandomCommentData 41 1 3 (JS.VNum 7) JS.VUndefined) = Ok d
       ∧ DTO.isValid (DTO.CommentDTO.validate d) = true
       ∧ DTO.CommentDTO.postId d
         = (if JS.truthy (JS.VNum 7) then JS.VNum 7 else JS.VNum (Z.of_nat 41 + 1)).
Proof.
  apply (generateRandomCommentData_valid Samples.bare_realm 41 1 3 (JS.VNum 7));
    [lia|lia|].
  right. exists 7. split; [reflexivity|lia].
Defined.

Lemma createTestFixtures_consistent_witness :
  (∃ d, DTO.PostDTO.fromJson Samples.bare_realm
          (JS.VObj (("id", JS.VNum 101) :: TestUtils.validPost)) = Ok d
        ∧ DTO.isValid (DTO.PostDTO.validate d) = true
        ∧ Validator.validateResponseSchema Samples.bare_realm
            (JS.VObj [("data", DTO.PostDTO.toJson d)]) (JS.VObj TestUtils.postSchema)
          = Some (Ok {| Validator.isValid := true; Validator.errors := [] |}))
  ∧ (∃ d, DTO.CommentDTO.fromJson Samples.bare_realm
            (JS.VObj (("id", JS.VNum 101) :: TestUtils.validComment)) = Ok d
          ∧ DTO.isValid (DTO.CommentDTO.validate d) = true
          ∧ Validator.validateResponseSchema Samples.bare_realm
              (JS.VObj [("data", DTO.CommentDTO.toJson d)])
              (JS.VObj TestUtils.commentSchema)
            = Some (Ok {| Validator.isValid := true; Validator.errors := [] |}))
  ∧ (∃ d, DTO.PostDTO.fromJson Samples.bare_realm (JS.VObj TestUtils.invalidPost) = Ok d
          ∧ DTO.errors (DTO.PostDTO.validate d)
            = [ "userId must be a positive number"; "title must be a non-empty string";
                "body must be a non-empty string" ]).
Proof. apply (createTestFixtures_consistent Samples.bare_realm 101). lia. Defined.

Lemma retryWithBackoff_total_wait_witness :
  ∃ c s' trace,
    Retry.retryWithBackoff (Samples.flaky 2) (Some 3) (Some 100) 0%nat = Some (c, s', trace)
    ∧ foldr Z.add 0 (Retry.waits trace) = 100 * (2 ^ Z.of_nat 2 - 1).
Proof.
  apply (retryWithBackoff_total_wait (Samples.flaky 2) 3 100 0%nat 2).
  - lia.
  - intros [|[|i]] Hi; [exact I|exact I|lia].
  - left. lia.
Defined.

Lemma retryWithBackoff_run_witness :
  3%nat = Retry.state_before (Samples.flaky 2) 0%nat 3
  ∧ (∀ i, (S i < 3)%nat → Retry.fails (Retry.nth_outcome (Samples.flaky 2) 0%nat i))
  ∧ ∃ k, 3%nat = S k ∧ Retry.nth_outcome (Samples.flaky 2) 0%nat k = Retry.Fulfilled "done".
Proof.
  apply (retryWithBackoff_run (Samples.flaky 2) 3 100 0%nat (Retry.Returned "done") 3%nat
           [Retry.Invoke; Retry.Delay 100; Retry.Invoke; Retry.Delay 200; Retry.Invoke]).
  reflexivity.
Defined.

Lemma retryWithBackoff_more_attempts_witness :
  Retry.retryWithBackoff (Samples.flaky 2) (Some 5) (Some 100) 0%nat
  = Some (Retry.Returned "done", 3%nat,
          [Retry.Invoke; Retry.Delay 100; Retry.Invoke; Retry.Delay 200; Retry.Invoke]).
Proof.
  apply (retryWithBackoff_more_attempts (Samples.flaky 2) 3 5 100 0%nat).
  - lia.
  - reflexivity.
Defined.

Lemma validateResponseSchema_reports_missing_witness :
  sublist (Schema.missing_messages Samples.bare_realm (JS.VObj TestUtils.validPost)
             EmptyString (JS.own_keys (JS.VObj TestUtils.postSchema)))
    ["Missing property: id"]
  ∧ (Schema.missing_messages Samples.bare_realm (JS.VObj TestUtils.validPost)
       EmptyString (JS.own_keys (JS.VObj TestUtils.postSchema)) ≠ []
     → false = false).
Proof.
  apply (validateResponseSchema_reports_missing Samples.bare_realm
           Scenarios.response_validPost (JS.VObj TestUtils.validPost)
           (JS.VObj TestUtils.postSchema)
           {| Validator.isValid := false;
              Validator.errors := ["Missing property: id"] |});
    reflexivity.
Defined.

Lemma validateResponseSchema_flat_witness :
  ∃ r, Validator.validateResponseSchema Samples.bare_realm Scenarios.response_validPost
         (JS.VObj TestUtils.postSchema) = Some (Ok r)
       ∧ (length (Validator.errors r) ≤ length TestUtils.postSchema)%nat
       ∧ (Validator.isValid r = true
          ↔ ∀ key type, JS.assoc key TestUtils.postSchema = Some (JS.VStr type) →
                        Schema.conforms Samples.bare_realm (JS.VObj TestUtils.validPost)
                          key type).
Proof.
  apply (validateResponseSchema_flat Samples.bare_realm Scenarios.response_validPost
           TestUtils.validPost TestUtils.postSchema); [reflexivity|].
  repeat (apply Forall_cons; split; [eexists; split; [reflexivity|discriminate]|]).
  apply Forall_nil_2.
Defined.

Lemma validateResponseSchema_object_type_witness :
  false = false ∧ (6 ≤ 6)%nat.
Proof.
  apply (proj1 (proj2 (validateResponseSchema_object_type Samples.bare_realm))
           Scenarios.response_nested
           [ ("id", JS.VNum 1); ("address", JS.VObj [ ("city", JS.VStr "Gwenborough") ]) ]
           [ ("address", JS.VStr "object") ]
           "address" [ ("city", JS.VStr "Gwenborough") ]
           {| Validator.isValid := false;
              Validator.errors :=
                [ "Missing property: address.0"; "Missing property: address.1";
                  "Missing property: address.2"; "Missing property: address.3";
                  "Missing property: address.4"; "Missing property: address.5" ] |});
    reflexivity.
Defined.

Lemma toHaveBody_toHaveEmptyBody_witness :
  let body := (Fluent.toHaveBody Samples.shallow_externals 3%positive
                 Samples.heap_scenario_B).1 in
  let empty := (Fluent.toHaveEmptyBody Samples.shallow_externals 3%positive
                  Samples.heap_scenario_B).1 in
  (body = Ok (Fluent.JRef 3%positive)
   ↔ Fluent.JRef 1%positive ≠ Fluent.JUndefined ∧ Fluent.JRef 1%positive ≠ Fluent.JNull)
  ∧ (empty = Ok (Fluent.JRef 3%positive)
     ↔ Fluent.JRef 1%positive
       ∈ [Fluent.JNull; Fluent.JUndefined; Fluent.JStr EmptyString])
  ∧ (body = Ok (Fluent.JRef 3%positive) ∨ empty = Ok (Fluent.JRef 3%positive))
  ∧ (body = Ok (Fluent.JRef 3%positive) ∧ empty = Ok (Fluent.JRef 3%positive)
     ↔ Fluent.JRef 1%positive = Fluent.JStr EmptyString).
Proof.
  apply (toHaveBody_toHaveEmptyBody Samples.shallow_externals 3%positive
           Samples.heap_scenario_B (Fluent.JRef 1%positive)).
  - reflexivity.
  - intros l [= <-]. eexists. reflexivity.
Defined.

Lemma toMatchSchema_presence_only_witness :
  Fluent.toMatchSchema Samples.shallow_externals 3%positive (Fluent.JRef 4%positive)
    Scenarios.heap_with_schema
  = Fluent.toHaveProperties Samples.shallow_externals 3%positive
      [ ("id", Fluent.JStr "number"); ("title", Fluent.JStr "string") ].*1
      Scenarios.heap_with_schema.
Proof.
  apply (toMatchSchema_presence_only Samples.shallow_externals 3%positive 4%positive
           [ ("id", Fluent.JStr "number"); ("title", Fluent.JStr "string") ]
           Scenarios.heap_with_schema); [reflexivity|].
  repeat (apply Forall_cons; split; [intros l; discriminate|]).
  apply Forall_nil_2.
Defined.

Lemma getActual_after_chain_witness :
  ∃ this, Fluent.JRef 4%positive = Fluent.JRef this
          ∧ Fluent.JRef 4%positive = Fluent.JRef this
          ∧ Samples.heap_scenario_B !! this = None
          ∧ Fluent.getActual Samples.shallow_externals this
              (<[ 4%positive := Fluent.OObj [("actual", Fluent.JRef 2%positive)] ]>
                 Samples.heap_scenario_B)
            = (Ok (Fluent.JRef 2%positive),
               <[ 4%positive := Fluent.OObj [("actual", Fluent.JRef 2%positive)] ]>
                 Samples.heap_scenario_B).
Proof.
  apply (getActual_after_chain Samples.shallow_externals (Fluent.JRef 2%positive)
           [Fluent.ToHaveStatus (Fluent.JNum 200); Fluent.And; Fluent.ToHaveBody]
           Samples.heap_scenario_B (Fluent.JRef 4%positive)
           (<[ 4%positive := Fluent.OObj [("actual", Fluent.JRef 2%positive)] ]>
              Samples.heap_scenario_B)
           (Fluent.JRef 4%positive)
           (<[ 4%positive := Fluent.OObj [("actual", Fluent.JRef 2%positive)] ]>
              Samples.heap_scenario_B));
    reflexivity.
Defined.
